(** * convert_any_to_mp4_gui.py: the conversion orchestration engine

    A shallow embedding of the progress store, the audio predicate, the
    two command builders, the per-task loop of [ConverterWorker.run] and
    [cleanup_from_progress], with the properties of the design document
    stated over it.

    Conventions.
    - The file system the program looks at through [os.path.exists],
      [os.stat], [os.path.isdir] and [os.remove] is a finite map from paths
      to nodes carrying the two fields of [st] that [file_sig] reads.
    - The program's own text files ([progress.json] and its [.tmp]
      sibling) live in a second finite map from paths to contents.
    - Every observable action (a log line, an external process, a call of
      [delete_file], a save, a line of [failed.txt], a progress message) is
      appended to a trace.
    - External tools are functions given once for the whole development:
      the probe, the ffmpeg runner, the trash provider, the clock, the
      JSON reader.  The exceptions of the model are those of [os.stat] and
      [os.remove] on a path they cannot handle, of [subprocess.Popen] when
      the tool cannot be started, and of the method calls on a progress
      file that holds JSON other than an object. *)

From Stdlib Require Import ZArith String Ascii List Bool Lia.
From stdpp Require Import base option list strings gmap.

Import ListNotations.
Local Open Scope string_scope.
Local Open Scope list_scope.
Local Open Scope Z_scope.

(** ** Strings: [str.lower], [os.path.splitext] *)

Module Str.

(** [str.lower] on the ASCII range, character by character. *)
Definition lower_ascii (c : ascii) : ascii :=
  let n := N_of_ascii c in
  if ((65 <=? n) && (n <=? 90))%N then ascii_of_N (n + 32) else c.

Fixpoint lower (s : string) : string :=
  match s with
  | EmptyString => EmptyString
  | String c r => String (lower_ascii c) (lower r)
  end.

(** [s.rfind(c)]: the last index of [c], [-1] when there is none. *)
Fixpoint rfind_from (c : ascii) (s : string) (i : Z) (acc : Z) : Z :=
  match s with
  | EmptyString => acc
  | String d r =>
      rfind_from c r (i + 1) (if Ascii.eqb c d then i else acc)
  end.

Definition rfind (c : ascii) (s : string) : Z := rfind_from c s 0 (-1).

(** [s[:i]] and [s[i:]] for [0 <= i]. *)
Definition take (i : Z) (s : string) : string :=
  substring 0 (Z.to_nat i) s.

Definition drop (i : Z) (s : string) : string :=
  substring (Z.to_nat i) (String.length s - Z.to_nat i) s.

(** The [while] loop of [genericpath._splitext]: is there a character
    other than the dot in [p[i:dot]]? *)
Fixpoint has_non_dot (p : string) (i : nat) (n : nat) : bool :=
  match n with
  | O => false
  | S n' =>
      match String.get i p with
      | Some c => if Ascii.eqb c "."%char then has_non_dot p (S i) n' else true
      | None => true
      end
  end.

(** [os.path.splitext] of [posixpath] ([sep = "/"], no [altsep]). *)
Definition splitext (p : string) : string * string :=
  let sepIndex := rfind "/"%char p in
  let dotIndex := rfind "."%char p in
  if (sepIndex <? dotIndex)
     && has_non_dot p (Z.to_nat (sepIndex + 1))
                      (Z.to_nat (dotIndex - (sepIndex + 1)))
  then (take dotIndex p, drop dotIndex p)
  else (p, EmptyString).

(** Truthiness of a Python [str]. *)
Definition truthy (s : string) : bool :=
  match s with EmptyString => false | _ => true end.

End Str.

(** ** Global configuration *)

Definition AUDIO_OK_FOR_MP4 : list string := ["aac"; "mp3"].
Definition AUDIO_BITRATE : string := "192k".

(** ** File system *)

(** [FileSig]: what [file_sig] returns, the dict
    [{"size": st.st_size, "mtime_ns": st.st_mtime_ns}]. *)
Record FileSig := mkSig { sig_size : Z; sig_mtime_ns : Z }.

Definition sig_eqb (a b : FileSig) : bool :=
  (sig_size a =? sig_size b) && (sig_mtime_ns a =? sig_mtime_ns b).

(** A node of the file system: a directory or a regular file, with the
    two [os.stat] fields the program reads. *)
Record Node := mkNode { is_dir : bool; st_size : Z; st_mtime_ns : Z }.

Abbreviation FileSys := (gmap string Node).

Definition path_exists (fs : FileSys) (p : string) : bool :=
  match fs !! p with Some _ => true | None => false end.

Definition path_isdir (fs : FileSys) (p : string) : bool :=
  match fs !! p with Some n => is_dir n | None => false end.

(** [os.path.getsize]; only called behind [os.path.exists]. *)
Definition getsize (fs : FileSys) (p : string) : Z :=
  match fs !! p with Some n => st_size n | None => 0 end.

(** [file_sig]: [None] stands for the [FileNotFoundError] of [os.stat]. *)
Definition file_sig (fs : FileSys) (path : string) : option FileSig :=
  match fs !! path with
  | Some n => Some (mkSig (st_size n) (st_mtime_ns n))
  | None => None
  end.

(** [os.remove]: [None] stands for the [OSError] raised on a path that is
    missing or is a directory. *)
Definition os_remove (fs : FileSys) (path : string) : option FileSys :=
  match fs !! path with
  | Some n => if is_dir n then None else Some (delete path fs)
  | None => None
  end.

(** [s.endswith("/")] *)
Fixpoint ends_with_sep (s : string) : bool :=
  match s with
  | EmptyString => false
  | String c EmptyString => Ascii.eqb c "/"%char
  | String _ r => ends_with_sep r
  end.

(** Is [k] the path [path] or a path below it?  Paths are compared as
    the strings they are, as everywhere in this file system. *)
Definition under (path k : string) : bool :=
  String.eqb k path
  || String.prefix (if ends_with_sep path then path else path +:+ "/") k.

(** What moving [path] to the trash takes out of the file system: the
    path and, when it is a directory, every path below it.  (The trash
    can itself is no part of this file system.) *)
Definition remove_tree (path : string) (fs : FileSys) : FileSys :=
  if path_isdir fs path
  then filter (fun kv => under path (fst kv) = false) fs
  else delete path fs.

(** ** Progress records and the progress store *)

(** One value of the dict written by [mark_progress].  A record read back
    from [progress.json] without a ["dst"] is the record with the empty
    [rec_dst]: both are falsy in [rec.get("dst") or dest_path(src)]. *)
Record ProgressRec := mkRec {
  rec_dst : string;
  rec_success : bool;
  rec_sig : option FileSig;
  rec_updated_at : Z
}.

(** The store is a Python [dict]: keys are unique and iteration follows
    insertion order, which [cleanup_from_progress] observes. *)
Definition DB := list (string * ProgressRec).

Fixpoint db_get (db : DB) (src : string) : option ProgressRec :=
  match db with
  | [] => None
  | (k, r) :: rest => if String.eqb k src then Some r else db_get rest src
  end.

(** [db[src] = r]: overwrite in place, or append a new key. *)
Fixpoint db_set (db : DB) (src : string) (r : ProgressRec) : DB :=
  match db with
  | [] => [(src, r)]
  | (k, r0) :: rest =>
      if String.eqb k src then (k, r) :: rest else (k, r0) :: db_set rest src r
  end.

(** What [json.loads] answers for the progress file: an object, read as
    the store, or another value (an array, a string, a number, [true],
    [false], [null]), of which the program only ever takes the truth
    value before a method call on it raises. *)
Inductive JsonValue :=
| JsonObject (db : DB)
| JsonOther (truthy : bool).

Definition dest_path (src : string) : string :=
  fst (Str.splitext src) +:+ ".mp4".

Definition ext_of (src : string) : string :=
  Str.lower (snd (Str.splitext src)).

(** [rec.get("sig") == sig] for the current signature [sig]. *)
Definition sig_matches (saved : option FileSig) (sig : FileSig) : bool :=
  match saved with
  | Some s => sig_eqb s sig
  | None => false
  end.

Definition already_done (db : DB) (fs : FileSys) (src dst : string) : bool :=
  match db_get db src with
  | None => false
  | Some rec =>
      if negb (path_exists fs dst) then false
      else
        match file_sig fs src with
        | None => false
        | Some sig => rec_success rec && sig_matches (rec_sig rec) sig
        end
  end.

Definition mark_progress (db : DB) (fs : FileSys) (src dst : string)
    (success : bool) (now : Z) : DB :=
  let sig := if path_exists fs src then file_sig fs src else None in
  db_set db src (mkRec dst success sig now).

(** ** The environment of one process

    The module-level globals resolved at import time and the external
    collaborators, gathered in one interface. *)

(** One entry of the stream list of [ffprobe]: [s.get("codec_name")]. *)
Record Stream := mkStream { codec_name : option string }.

Class Env := {
  (** [FFMPEG_BIN]; the unresolved tool ([None]) is the empty string,
      falsy like it in [if not FFMPEG_BIN]. *)
  FFMPEG_BIN : string;
  PROGRESS_DB_FILE : string;
  (** [os.sep] and [os.path.normcase(os.path.abspath(p))]. *)
  os_sep : string;
  norm_path : string -> string;
  (** [ffprobe(filter_type, path)]: the filtered stream list, empty when
      both probing strategies yield nothing. *)
  ffprobe : string -> string -> FileSys -> list Stream;
  (** The child process of [run_ffmpeg_with_streaming]: from the number
      of actions performed so far, the command and the file system to the
      exit code and the file system it leaves; [None] when
      [subprocess.Popen] raises because the tool cannot be started. *)
  ffmpeg_exec : nat -> list string -> FileSys -> option (Z * FileSys);
  (** Does [send2trash(path)] import and return without raising?  It is
      only asked about paths that exist. *)
  send2trash_ok : string -> FileSys -> bool;
  (** [datetime.datetime.now()], in seconds, from the number of actions
      performed so far. *)
  clock : nat -> Z;
  (** [json.dump(data, f, ...)] as the sequence of chunks it writes, and
      [json.loads], [None] when it raises. *)
  json_dump : DB -> list string;
  json_loads : string -> option JsonValue;
  (** [self._stop.is_set()] when [idx] tasks have been started. *)
  stop_is_set : nat -> bool
}.

(** ** Audio predicate and command builders *)

Definition codec_or_empty (s : Stream) : string :=
  match codec_name s with
  | Some c => c
  | None => ""
  end.

Definition str_in (x : string) (l : list string) : bool :=
  existsb (String.eqb x) l.

(** The [for s in streams] loop of [should_transcode_audio_for_mkv]. *)
Fixpoint any_incompatible (streams : list Stream) : bool :=
  match streams with
  | [] => false
  | s :: rest =>
      let c := Str.lower (codec_or_empty s) in
      if negb (str_in c AUDIO_OK_FOR_MP4) then true else any_incompatible rest
  end.

Definition needs_audio_transcode (streams : list Stream) : bool :=
  match streams with
  | [] => false
  | _ => any_incompatible streams
  end.

Definition should_transcode_audio_for_mkv `{Env} (fs : FileSys) (src : string) : bool :=
  needs_audio_transcode (ffprobe "audio" src fs).

Definition build_ffmpeg_cmd_remux_mkv `{Env} (src dst : string)
    (transcode_audio keep_text_subs : bool) : list string :=
  let cmd := [ FFMPEG_BIN;
               "-loglevel"; "warning";
               "-hide_banner";
               "-nostats";
               "-y";
               "-fflags"; "+genpts+discardcorrupt";
               "-err_detect"; "ignore_err";
               "-i"; src;
               "-map"; "0:v?";
               "-map"; "0:a?";
               "-c:v"; "copy" ] in
  let cmd :=
    if transcode_audio
    then cmd ++ ["-c:a"; "aac"; "-b:a"; AUDIO_BITRATE;
                 "-af"; "aresample=async=1:first_pts=0"]
    else cmd ++ ["-c:a"; "copy"] in
  let cmd :=
    if keep_text_subs then cmd ++ ["-map"; "0:s?"; "-c:s"; "mov_text"] else cmd in
  cmd ++ ["-avoid_negative_ts"; "make_zero"; "-movflags"; "+faststart"; dst].

(** Truthiness of [tune], which [process_transcode] passes as a string or
    [None]. *)
Definition opt_truthy (o : option string) : bool :=
  match o with
  | Some s => Str.truthy s
  | None => false
  end.

Definition build_ffmpeg_cmd_transcode `{Env} (src dst crf preset : string)
    (tune : option string) (lossless : bool) : list string :=
  let cmd := [ FFMPEG_BIN;
               "-loglevel"; "warning";
               "-hide_banner";
               "-nostats";
               "-y";
               "-fflags"; "+genpts+discardcorrupt";
               "-err_detect"; "ignore_err";
               "-i"; src;
               "-map"; "0:v:0?";
               "-map"; "0:a:0?";
               "-c:v"; "libx264" ] in
  let cmd :=
    if lossless
    then cmd ++ ["-preset"; (if Str.truthy preset then preset else "veryslow");
                 "-crf"; "0"; "-pix_fmt"; "yuv420p"]
    else cmd ++ ["-preset"; preset; "-crf"; crf; "-pix_fmt"; "yuv420p"] in
  let cmd :=
    if opt_truthy tune then cmd ++ ["-tune"; default "" tune] else cmd in
  let cmd := cmd ++ ["-c:a"; "aac"; "-b:a"; AUDIO_BITRATE] in
  cmd ++ ["-avoid_negative_ts"; "make_zero"; "-movflags"; "+faststart"; dst].

(** ** Deletion helpers *)

Inductive DeleteMethod := Trashed | Deleted.

(** [try_send2trash]: [true] with the path, and what lies below it, gone
    to the trash, or [false] with the file system as it was (the import or
    the call raised). *)
Definition try_send2trash `{Env} (fs : FileSys) (path : string) : FileSys * bool :=
  if path_exists fs path && send2trash_ok path fs
  then (remove_tree path fs, true)
  else (fs, false).

(** [delete_file]: [None] stands for the exception of [os.remove]; the
    file system is then unchanged. *)
Definition delete_file `{Env} (fs : FileSys) (path : string) (permanent : bool)
    : option (FileSys * DeleteMethod) :=
  let '(fs1, trashed) :=
    if negb permanent then try_send2trash fs path else (fs, false) in
  if trashed then Some (fs1, Trashed)
  else match os_remove fs path with
       | Some fs2 => Some (fs2, Deleted)
       | None => None
       end.

(** ** Options, messages, events and the world *)

(** [opts["delete_after_policy"]] and the [policy] of the cleanup:
    [None], ["all"] or a set of extensions. *)
Inductive Policy :=
| PolicyNone
| PolicyAll
| PolicySet (exts : gset string).

Definition policy_truthy (p : Policy) : bool :=
  match p with
  | PolicyNone => false
  | PolicyAll => true
  | PolicySet s => negb (bool_decide (s = ∅))
  end.

Record Options := mkOptions {
  force : bool;
  dry_run : bool;
  permanent : bool;
  delete_after_policy : Policy;
  crf : string;
  preset : string;
  tune : string;
  lossless : bool
}.

(** The counters of [cleanup_from_progress]. *)
Record Tally := mkTally {
  total_candidates : nat;
  removed : nat;
  mismatched : nat;
  missing_dst : nat;
  missing_src : nat;
  skipped_scope : nat;
  skipped_not_success : nat;
  skipped_ext : nat
}.

Definition tally0 : Tally := mkTally 0 0 0 0 0 0 0 0.

(** The lines handed to [ui_safe_log] and [ui_safe_log_raw], by kind. *)
Inductive Msg :=
| MsgNoFfmpeg
| MsgStopped
| MsgSkipping (idx total : nat) (src : string)
| MsgCrash (src : string)
| MsgTraceback
| MsgDone (success total skipped : nat)
| MsgRemux (idx total : nat) (src : string)
| MsgTranscode (idx total : nat) (src : string)
| MsgFfmpeg (cmd : list string)
| MsgSuccess (dst : string)
| MsgPrimaryFailed
| MsgSuccessFallback (dst : string)
| MsgFailed (src : string)
| MsgDryRunSource (src : string)
| MsgRemovedSource (method : DeleteMethod) (src : string)
| MsgNothingToClean
| MsgCleanupStart (policy : Policy) (dry_run permanent : bool)
| MsgNotSuccess (src : string)
| MsgMissingConverted (src : string)
| MsgAlreadyGone (src : string)
| MsgChanged (src : string)
| MsgDryRunRemove (src : string)
| MsgRemoved (method : DeleteMethod) (src : string)
| MsgErrorRemoving (src : string)
| MsgSummary (t : Tally).

Inductive Event :=
| EvLog (m : Msg)
| EvProbe (filter_type path : string)
| EvFfmpeg (cmd : list string)
| EvDeleteFile (path : string) (permanent : bool)
| EvSave (path : string) (data : DB)
| EvAppendFailed (path : string)
| EvProgress (idx total : nat)
| EvDone.

Abbreviation Disk := (gmap string string).

Record World := mkWorld {
  w_fs : FileSys;
  w_disk : Disk;
  w_trace : list Event
}.

Definition emit (e : Event) (w : World) : World :=
  mkWorld (w_fs w) (w_disk w) (w_trace w ++ [e]).

Definition ui_safe_log (m : Msg) (w : World) : World := emit (EvLog m) w.

Definition set_fs (fs : FileSys) (w : World) : World :=
  mkWorld fs (w_disk w) (w_trace w).

Definition set_disk (d : Disk) (w : World) : World :=
  mkWorld (w_fs w) d (w_trace w).

(** The number of actions performed so far. *)
Definition tick (w : World) : nat := length (w_trace w).

(** ** The progress file: [load_json], [save_json] *)

(** The writes of [save_json], one at a time. *)
Inductive IoOp :=
| OpOpenW (path : string)
| OpWrite (path : string) (chunk : string)
| OpReplace (src dst : string).

Definition apply_op (d : Disk) (op : IoOp) : Disk :=
  match op with
  | OpOpenW p => <[p := ""]> d
  | OpWrite p c =>
      match d !! p with
      | Some txt => <[p := txt +:+ c]> d
      | None => d
      end
  | OpReplace a b =>
      match d !! a with
      | Some txt => <[b := txt]> (delete a d)
      | None => d
      end
  end.

Definition tmp_of (path : string) : string := path +:+ ".tmp".

Definition save_json_ops `{Env} (path : string) (data : DB) : list IoOp :=
  let tmp := tmp_of path in
  OpOpenW tmp :: map (OpWrite tmp) (json_dump data) ++ [OpReplace tmp path].

Definition save_json `{Env} (path : string) (data : DB) (d : Disk) : Disk :=
  fold_left apply_op (save_json_ops path data) d.

(** [save_json] cut short after its first [n] writes. *)
Definition save_json_interrupted `{Env} (n : nat) (path : string) (data : DB)
    (d : Disk) : Disk :=
  fold_left apply_op (firstn n (save_json_ops path data)) d.

(** What a complete [json.dump(data, f)] leaves in [f]. *)
Definition json_text `{Env} (data : DB) : string :=
  fold_left String.append (json_dump data) "".

(** [load_json]: what [json.loads] answers, whatever its type, and the
    empty dict when the file cannot be read or parsed. *)
Definition load_json `{Env} (path : string) (d : Disk) : JsonValue :=
  match d !! path with
  | None => JsonObject []
  | Some txt =>
      match json_loads (if Str.truthy txt then txt else "{}") with
      | Some v => v
      | None => JsonObject []
      end
  end.

Definition save_progress `{Env} (db : DB) (w : World) : World :=
  emit (EvSave PROGRESS_DB_FILE db)
       (set_disk (save_json PROGRESS_DB_FILE db (w_disk w)) w).

(** ** The worker *)

(** [run_ffmpeg_with_streaming]: the command line is logged,
    [subprocess.Popen(cmd)] is called, the child runs and its exit code is
    returned; [None] stands for the exception of [Popen], which nothing
    here catches.  The lines the child writes to its diagnostic stream go
    to the log only and are left out. *)
Definition run_ffmpeg_with_streaming `{Env} (cmd : list string) (w : World)
    : option Z * World :=
  let w := ui_safe_log (MsgFfmpeg cmd) w in
  let w := emit (EvFfmpeg cmd) w in
  match ffmpeg_exec (tick w) cmd (w_fs w) with
  | Some (rc, fs') => (Some rc, set_fs fs' w)
  | None => (None, w)
  end.

(** [rc == 0 and os.path.exists(dst) and os.path.getsize(dst) > 0] *)
Definition conversion_ok (rc : Z) (fs : FileSys) (dst : string) : bool :=
  (rc =? 0) && path_exists fs dst && (0 <? getsize fs dst).

(** [process_mkv]: [Some ok] for the answer it returns, [None] when the
    exception of a [run_ffmpeg_with_streaming] leaves it. *)
Definition process_mkv `{Env} (src : string) (idx total : nat) (w : World)
    : option bool * World :=
  let w := ui_safe_log (MsgRemux idx total src) w in
  let w := emit (EvProbe "audio" src) w in
  let transcode_audio := should_transcode_audio_for_mkv (w_fs w) src in
  let cmd := build_ffmpeg_cmd_remux_mkv src (dest_path src) transcode_audio false in
  match run_ffmpeg_with_streaming cmd w with
  | (None, w) => (None, w)
  | (Some rc, w) =>
      if conversion_ok rc (w_fs w) (dest_path src)
      then (Some true, ui_safe_log (MsgSuccess (dest_path src)) w)
      else
        let w := ui_safe_log MsgPrimaryFailed w in
        let cmd2 := build_ffmpeg_cmd_remux_mkv src (dest_path src) true false in
        match run_ffmpeg_with_streaming cmd2 w with
        | (None, w) => (None, w)
        | (Some rc2, w) =>
            if conversion_ok rc2 (w_fs w) (dest_path src)
            then (Some true, ui_safe_log (MsgSuccessFallback (dest_path src)) w)
            else
              let w := ui_safe_log (MsgFailed src) w in
              (Some false, emit (EvAppendFailed src) w)
        end
  end.

Definition process_transcode `{Env} (opts : Options) (src : string)
    (idx total : nat) (w : World) : option bool * World :=
  let w := ui_safe_log (MsgTranscode idx total src) w in
  let cmd := build_ffmpeg_cmd_transcode src (dest_path src)
               (crf opts) (preset opts)
               (if Str.truthy (tune opts) then Some (tune opts) else None)
               (lossless opts) in
  match run_ffmpeg_with_streaming cmd w with
  | (None, w) => (None, w)
  | (Some rc, w) =>
      if conversion_ok rc (w_fs w) (dest_path src)
      then (Some true, ui_safe_log (MsgSuccess (dest_path src)) w)
      else
        let w := ui_safe_log (MsgFailed src) w in
        (Some false, emit (EvAppendFailed src) w)
  end.

(** [policy == "all" or (isinstance(policy, set) and ext in policy)] *)
Definition policy_allows (policy : Policy) (ext : string) : bool :=
  match policy with
  | PolicyNone => false
  | PolicyAll => true
  | PolicySet s => bool_decide (ext ∈ s)
  end.

(** How a call that may raise ends. *)
Inductive Outcome :=
| Returned (w : World)
| Raised (w : World).

Definition maybe_delete_source `{Env} (opts : Options) (src : string) (w : World)
    : Outcome :=
  let ext := ext_of src in
  let policy := delete_after_policy opts in
  let allowed := policy_allows policy ext in
  if negb allowed then Returned w
  else if dry_run opts then Returned (ui_safe_log (MsgDryRunSource src) w)
  else
    let w := emit (EvDeleteFile src (permanent opts)) w in
    match delete_file (w_fs w) src (permanent opts) with
    | Some (fs', method) =>
        Returned (ui_safe_log (MsgRemovedSource method src) (set_fs fs' w))
    | None => Raised w
    end.

(** The dispatch on the extension in the loop of [run]. *)
Definition process_file `{Env} (opts : Options) (src : string)
    (idx total : nat) (w : World) : option bool * World :=
  if String.eqb (ext_of src) ".mkv"
  then process_mkv src idx total w
  else process_transcode opts src idx total w.

(** The locals of [ConverterWorker.run]. *)
Record RunState := mkRun {
  r_db : DB;
  r_success : nat;
  r_skipped : nat;
  r_idx : nat;
  r_world : World
}.

(** The [except Exception] block of the loop. *)
Definition on_crash `{Env} (src : string) (db : DB) (w : World) : DB * World :=
  let w := ui_safe_log (MsgCrash src) w in
  let w := ui_safe_log MsgTraceback w in
  let w := emit (EvAppendFailed src) w in
  let dst := dest_path src in
  let db := mark_progress db (w_fs w) src dst false (clock (tick w)) in
  (db, save_progress db w).

(** One iteration of [for src in self.tasks], after [idx += 1]. *)
Definition run_task `{Env} (opts : Options) (total : nat) (src : string)
    (st : RunState) : RunState :=
  let idx := r_idx st in
  let db := r_db st in
  let w := r_world st in
  let dst := dest_path src in
  if negb (force opts) && already_done db (w_fs w) src dst then
    let w := ui_safe_log (MsgSkipping idx total src) w in
    let w := emit (EvProgress idx total) w in
    (* continue, through the finally block *)
    mkRun db (r_success st) (S (r_skipped st)) idx (emit (EvProgress idx total) w)
  else
    match process_file opts src idx total w with
    | (None, w) =>
        let '(db, w) := on_crash src db w in
        mkRun db (r_success st) (r_skipped st) idx
              (emit (EvProgress idx total) w)
    | (Some ok, w) =>
        let db := mark_progress db (w_fs w) src dst ok (clock (tick w)) in
        let w := save_progress db w in
        let success := if ok then S (r_success st) else r_success st in
        let '(db, w) :=
          if ok && policy_truthy (delete_after_policy opts) then
            match maybe_delete_source opts src w with
            | Returned w => (db, w)
            | Raised w => on_crash src db w
            end
          else (db, w) in
        mkRun db success (r_skipped st) idx (emit (EvProgress idx total) w)
    end.

Fixpoint run_loop `{Env} (opts : Options) (total : nat) (tasks : list string)
    (st : RunState) : RunState :=
  match tasks with
  | [] => st
  | src :: rest =>
      if stop_is_set (r_idx st)
      then mkRun (r_db st) (r_success st) (r_skipped st) (r_idx st)
                 (ui_safe_log MsgStopped (r_world st))
      else
        let st := mkRun (r_db st) (r_success st) (r_skipped st)
                        (S (r_idx st)) (r_world st) in
        run_loop opts total rest (run_task opts total src st)
  end.

(** The loop of [run] when [db] is not a dict (the progress file holds
    valid JSON that is not an object): [db.get(src)] in [already_done]
    raises [AttributeError] and [db[src] = ...] in [mark_progress] raises
    [TypeError].  The first task that is started therefore ends in the
    [except] block, after its conversion when [force] made the loop pass
    over [already_done]; the [mark_progress] of the [except] block raises
    in its turn, the [finally] block runs and the exception leaves
    [run]. *)
Definition run_loop_not_a_dict `{Env} (opts : Options) (total : nat)
    (tasks : list string) (w : World) : Outcome :=
  match tasks with
  | [] => Returned w
  | src :: _ =>
      if stop_is_set 0 then Returned (ui_safe_log MsgStopped w)
      else
        let idx := 1%nat in
        let w := if force opts then snd (process_file opts src idx total w)
                 else w in
        let w := ui_safe_log (MsgCrash src) w in
        let w := ui_safe_log MsgTraceback w in
        let w := emit (EvAppendFailed src) w in
        Raised (emit (EvProgress idx total) w)
  end.

(** [ConverterWorker.run]: [Raised] when an exception leaves it, and the
    thread ends without its summary.  The two session lines written
    straight to the log file are left out. *)
Definition run `{Env} (opts : Options) (tasks : list string) (w : World)
    : Outcome :=
  if negb (Str.truthy FFMPEG_BIN)
  then Returned (emit EvDone (ui_safe_log MsgNoFfmpeg w))
  else
    let total := length tasks in
    match load_json PROGRESS_DB_FILE (w_disk w) with
    | JsonObject db =>
        let st := run_loop opts total tasks (mkRun db 0 0 0 w) in
        let w := ui_safe_log (MsgDone (r_success st) total (r_skipped st))
                   (r_world st) in
        Returned (emit EvDone w)
    | JsonOther _ =>
        match run_loop_not_a_dict opts total tasks w with
        | Returned w =>
            Returned (emit EvDone (ui_safe_log (MsgDone 0 total 0) w))
        | Raised w => Raised w
        end
    end.

(** ** Cleanup from the progress store *)

(** The [for r in roots] loop of [is_within]. *)
Fixpoint within_roots `{Env} (fs : FileSys) (p_norm : string)
    (roots : list string) : bool :=
  match roots with
  | [] => false
  | r :: rest =>
      let r_norm := norm_path r in
      if String.eqb p_norm r_norm then true
      else if path_isdir fs r_norm && String.prefix (r_norm +:+ os_sep) p_norm
      then true
      else within_roots fs p_norm rest
  end.

Definition is_within `{Env} (fs : FileSys) (path : string) (roots : list string)
    : bool :=
  match roots with
  | [] => true
  | _ => within_roots fs (norm_path path) roots
  end.

Definition list_truthy {A} (l : list A) : bool :=
  match l with [] => false | _ => true end.

(** [policy != "all" and ext not in policy]; [None] stands for the
    [TypeError] of [ext not in None]. *)
Definition ext_excluded (policy : Policy) (ext : string) : option bool :=
  match policy with
  | PolicyAll => Some false
  | PolicySet s => Some (negb (bool_decide (ext ∈ s)))
  | PolicyNone => None
  end.

(** [rec.get("dst") or dest_path(src)] *)
Definition effective_dst (src : string) (rec : ProgressRec) : string :=
  if Str.truthy (rec_dst rec) then rec_dst rec else dest_path src.

(** [not saved_sig or saved_sig != current_sig] *)
Definition sig_changed (saved_sig : option FileSig) (current_sig : FileSig) : bool :=
  match saved_sig with
  | None => true
  | Some s => negb (sig_eqb s current_sig)
  end.

Definition bump_candidates (t : Tally) : Tally :=
  mkTally (S (total_candidates t)) (removed t) (mismatched t) (missing_dst t)
          (missing_src t) (skipped_scope t) (skipped_not_success t) (skipped_ext t).
Definition bump_removed (t : Tally) : Tally :=
  mkTally (total_candidates t) (S (removed t)) (mismatched t) (missing_dst t)
          (missing_src t) (skipped_scope t) (skipped_not_success t) (skipped_ext t).
Definition bump_mismatched (t : Tally) : Tally :=
  mkTally (total_candidates t) (removed t) (S (mismatched t)) (missing_dst t)
          (missing_src t) (skipped_scope t) (skipped_not_success t) (skipped_ext t).
Definition bump_missing_dst (t : Tally) : Tally :=
  mkTally (total_candidates t) (removed t) (mismatched t) (S (missing_dst t))
          (missing_src t) (skipped_scope t) (skipped_not_success t) (skipped_ext t).
Definition bump_missing_src (t : Tally) : Tally :=
  mkTally (total_candidates t) (removed t) (mismatched t) (missing_dst t)
          (S (missing_src t)) (skipped_scope t) (skipped_not_success t) (skipped_ext t).
Definition bump_skipped_scope (t : Tally) : Tally :=
  mkTally (total_candidates t) (removed t) (mismatched t) (missing_dst t)
          (missing_src t) (S (skipped_scope t)) (skipped_not_success t) (skipped_ext t).
Definition bump_skipped_not_success (t : Tally) : Tally :=
  mkTally (total_candidates t) (removed t) (mismatched t) (missing_dst t)
          (missing_src t) (skipped_scope t) (S (skipped_not_success t)) (skipped_ext t).
Definition bump_skipped_ext (t : Tally) : Tally :=
  mkTally (total_candidates t) (removed t) (mismatched t) (missing_dst t)
          (missing_src t) (skipped_scope t) (skipped_not_success t) (S (skipped_ext t)).

(** The [except Exception] block of the cleanup loop. *)
Definition cleanup_error (src : string) (t : Tally) (w : World) : Tally * World :=
  (t, ui_safe_log MsgTraceback (ui_safe_log (MsgErrorRemoving src) w)).

(** One iteration of [for src, rec in db.items()]. *)
Definition cleanup_item `{Env} (policy : Policy) (scope_paths : list string)
    (permanent dry_run : bool) (t : Tally) (w : World)
    (item : string * ProgressRec) : Tally * World :=
  let '(src, rec) := item in
  let ext := ext_of src in
  match ext_excluded policy ext with
  | None => cleanup_error src t w
  | Some true => (bump_skipped_ext t, w)
  | Some false =>
      if list_truthy scope_paths && negb (is_within (w_fs w) src scope_paths)
      then (bump_skipped_scope t, w)
      else
        let t := bump_candidates t in
        if negb (rec_success rec)
        then (bump_skipped_not_success t, ui_safe_log (MsgNotSuccess src) w)
        else
          let dst := effective_dst src rec in
          if negb (path_exists (w_fs w) dst)
          then (bump_missing_dst t, ui_safe_log (MsgMissingConverted src) w)
          else if negb (path_exists (w_fs w) src)
          then (bump_missing_src t, ui_safe_log (MsgAlreadyGone src) w)
          else
            let saved_sig := rec_sig rec in
            match file_sig (w_fs w) src with
            | None => (bump_missing_src t, ui_safe_log (MsgAlreadyGone src) w)
            | Some current_sig =>
                if sig_changed saved_sig current_sig
                then (bump_mismatched t, ui_safe_log (MsgChanged src) w)
                else if dry_run
                then (t, ui_safe_log (MsgDryRunRemove src) w)
                else
                  let w := emit (EvDeleteFile src permanent) w in
                  match delete_file (w_fs w) src permanent with
                  | Some (fs', method) =>
                      (bump_removed t,
                       ui_safe_log (MsgRemoved method src) (set_fs fs' w))
                  | None => cleanup_error src t w
                  end
            end
  end.

Fixpoint cleanup_loop `{Env} (policy : Policy) (scope_paths : list string)
    (permanent dry_run : bool) (items : DB) (t : Tally) (w : World)
    : Tally * World :=
  match items with
  | [] => (t, w)
  | item :: rest =>
      let '(t, w) := cleanup_item policy scope_paths permanent dry_run t w item in
      cleanup_loop policy scope_paths permanent dry_run rest t w
  end.

(** [cleanup_from_progress]: [Raised] for the [AttributeError] of
    [db.items()] on a value that is truthy and not a dict. *)
Definition cleanup_from_progress `{Env} (policy : Policy)
    (scope_paths : list string) (permanent dry_run : bool) (w : World)
    : Outcome :=
  let db := load_json PROGRESS_DB_FILE (w_disk w) in
  match db with
  | JsonObject [] | JsonOther false =>
      Returned (ui_safe_log MsgNothingToClean w)
  | JsonOther true =>
      Raised (ui_safe_log (MsgCleanupStart policy dry_run permanent) w)
  | JsonObject db =>
      let w := ui_safe_log (MsgCleanupStart policy dry_run permanent) w in
      let '(t, w) := cleanup_loop policy scope_paths permanent dry_run db tally0 w in
      Returned (ui_safe_log (MsgSummary t) w)
  end.

(** ** Reading a trace *)

(** The commands handed to [run_ffmpeg_with_streaming], one for each
    call of [subprocess.Popen]. *)
Fixpoint ffmpeg_cmds (tr : list Event) : list (list string) :=
  match tr with
  | [] => []
  | EvFfmpeg cmd :: rest => cmd :: ffmpeg_cmds rest
  | _ :: rest => ffmpeg_cmds rest
  end.

(** The calls that start an external process: probes and the [Popen] of
    ffmpeg. *)
Definition is_process (e : Event) : bool :=
  match e with
  | EvProbe _ _ | EvFfmpeg _ => true
  | _ => false
  end.

(** The calls of [delete_file]. *)
Definition is_delete (e : Event) : bool :=
  match e with
  | EvDeleteFile _ _ => true
  | _ => false
  end.

(** The saves of the progress store. *)
Definition is_save (e : Event) : bool :=
  match e with
  | EvSave _ _ => true
  | _ => false
  end.

(** The dry-run lines of the cleanup: what it would have removed. *)
Definition is_intent (e : Event) : bool :=
  match e with
  | EvLog (MsgDryRunRemove _) => true
  | _ => false
  end.



Definition processes (tr : list Event) : list Event := List.filter is_process tr.
Definition intents (tr : list Event) : list Event := List.filter is_intent tr.
Definition deletions (tr : list Event) : list Event := List.filter is_delete tr.
Definition saves (tr : list Event) : list Event := List.filter is_save tr.

(** The checks that stand between a progress record and [delete_file] in
    the cleanup loop, in the state the iteration starts from. *)
Definition cleanup_eligible `{Env} (policy : Policy) (scope_paths : list string)
    (fs : FileSys) (src : string) (rec : ProgressRec) : bool :=
  match ext_excluded policy (ext_of src) with
  | Some false =>
      (negb (list_truthy scope_paths) || is_within fs src scope_paths)
      && rec_success rec
      && path_exists fs (effective_dst src rec)
      && path_exists fs src
      && match file_sig fs src with
         | Some current_sig => negb (sig_changed (rec_sig rec) current_sig)
         | None => false
         end
  | _ => false
  end.

(** ** Notions used in the statements *)

(** The codec names that are [aac] or [mp3] when compared without regard
    to case, each spelling written out. *)
Definition aac_spellings : list string :=
  ["aac"; "aaC"; "aAc"; "aAC"; "Aac"; "AaC"; "AAc"; "AAC"].

Definition mp3_spellings : list string := ["mp3"; "mP3"; "Mp3"; "MP3"].

(** [needle] occurs in [hay] as a run of consecutive arguments. *)
Definition has_args (needle hay : list string) : Prop :=
  exists pre post, hay = pre ++ needle ++ post.

(** The events of one call of [run_ffmpeg_with_streaming]. *)
Definition ffmpeg_events (cmd : list string) : list Event :=
  [EvLog (MsgFfmpeg cmd); EvFfmpeg cmd].

(** The primary and the fallback command of [process_mkv], and the
    command of [process_transcode]. *)
Definition primary_cmd `{Env} (src : string) (w : World) : list string :=
  build_ffmpeg_cmd_remux_mkv src (dest_path src)
    (should_transcode_audio_for_mkv (w_fs w) src) false.

Definition fallback_cmd `{Env} (src : string) : list string :=
  build_ffmpeg_cmd_remux_mkv src (dest_path src) true false.

Definition transcode_cmd `{Env} (opts : Options) (src : string) : list string :=
  build_ffmpeg_cmd_transcode src (dest_path src) (crf opts) (preset opts)
    (if Str.truthy (tune opts) then Some (tune opts) else None) (lossless opts).

(** How one call of [run_ffmpeg_with_streaming] and the test that follows
    it end: the tool could not be started, or it ran and left a file
    system in which the test passes or fails. *)
Inductive Attempt :=
| NotStarted
| Passed (fs : FileSys)
| Missed (fs : FileSys).

Definition attempt `{Env} (n : nat) (cmd : list string) (fs : FileSys)
    (dst : string) : Attempt :=
  match ffmpeg_exec n cmd fs with
  | None => NotStarted
  | Some (rc, fs') => if conversion_ok rc fs' dst then Passed fs' else Missed fs'
  end.

(** The skip test of the loop. *)
Definition skips `{Env} (opts : Options) (src : string) (st : RunState) : bool :=
  negb (force opts)
  && already_done (r_db st) (w_fs (r_world st)) src (dest_path src).

(** The body of the loop from [mark_progress] on, for the answer [ok] of
    the conversion and the world [w] it leaves. *)
Definition after_process `{Env} (opts : Options) (total : nat) (src : string)
    (st : RunState) (ok : bool) (w : World) : RunState :=
  let db := mark_progress (r_db st) (w_fs w) src (dest_path src) ok
              (clock (tick w)) in
  let w := save_progress db w in
  let success := if ok then S (r_success st) else r_success st in
  let '(db, w) :=
    if ok && policy_truthy (delete_after_policy opts) then
      match maybe_delete_source opts src w with
      | Returned w => (db, w)
      | Raised w => on_crash src db w
      end
    else (db, w) in
  mkRun db success (r_skipped st) (r_idx st)
        (emit (EvProgress (r_idx st) total) w).

(** The body of the loop when an exception leaves the conversion in the
    world [w]: the [except] block, then the [finally] block. *)
Definition after_crash `{Env} (total : nat) (src : string) (st : RunState)
    (w : World) : RunState :=
  let '(db, w) := on_crash src (r_db st) w in
  mkRun db (r_success st) (r_skipped st) (r_idx st)
        (emit (EvProgress (r_idx st) total) w).

(** The body of the loop after the conversion, however it ended. *)
Definition finish `{Env} (opts : Options) (total : nat) (src : string)
    (st : RunState) (r : option bool * World) : RunState :=
  match fst r with
  | Some ok => after_process opts total src st ok (snd r)
  | None => after_crash total src st (snd r)
  end.

(** The world a call leaves, whether it returns or raises. *)
Definition world_of (o : Outcome) : World :=
  match o with
  | Returned w => w
  | Raised w => w
  end.

(** The records the program finds in what [load_json] answers: those of
    an object, none in any other value. *)
Definition records_of (v : JsonValue) : DB :=
  match v with
  | JsonObject db => db
  | JsonOther _ => []
  end.

(** Does the delete-after step reach [delete_file]? *)
Definition deletes_after `{Env} (opts : Options) (src : string) (ok : bool) : bool :=
  ok && policy_truthy (delete_after_policy opts)
  && policy_allows (delete_after_policy opts) (ext_of src)
  && negb (dry_run opts).

(** Does it stop at the dry-run log line? *)
Definition dry_runs_after `{Env} (opts : Options) (src : string) (ok : bool) : bool :=
  ok && policy_truthy (delete_after_policy opts)
  && policy_allows (delete_after_policy opts) (ext_of src)
  && dry_run opts.

(** The save that comes last in a trace. *)
Definition last_save (tr : list Event) : option Event :=
  List.last (map Some (saves tr)) None.

(** [src] is the root [r] itself or lies below the directory [r]. *)
Definition in_scope_of `{Env} (fs : FileSys) (src r : string) : Prop :=
  norm_path src = norm_path r
  \/ (path_isdir fs (norm_path r) = true
      /\ String.prefix (norm_path r +:+ os_sep) (norm_path src) = true).



(** ** Further readers of a trace *)

(** The lines appended to [failed.txt], in order. *)
Fixpoint failed_lines (tr : list Event) : list string :=
  match tr with
  | [] => []
  | EvAppendFailed path :: rest => path :: failed_lines rest
  | _ :: rest => failed_lines rest
  end.

(** The locals of [run] after the [break] of a stop request. *)
Definition stopped (st : RunState) : RunState :=
  mkRun (r_db st) (r_success st) (r_skipped st) (r_idx st)
        (ui_safe_log MsgStopped (r_world st)).

(** Does [hay] start with [needle]?  Does [needle] occur in [hay]? *)
Fixpoint starts_with (needle hay : list string) : bool :=
  match needle, hay with
  | [], _ => true
  | _ :: _, [] => false
  | n :: needle', h :: hay' => String.eqb n h && starts_with needle' hay'
  end.

Fixpoint has_argsb (needle hay : list string) : bool :=
  starts_with needle hay
  || match hay with
     | [] => false
     | _ :: hay' => has_argsb needle hay'
     end.

(** The error lines of the cleanup loop. *)
Definition is_cleanup_error (e : Event) : bool :=
  match e with
  | EvLog (MsgErrorRemoving _) => true
  | _ => false
  end.

Definition cleanup_errors (tr : list Event) : list Event :=
  List.filter is_cleanup_error tr.

(** The records the cleanup has classified: left out by extension or
    scope, or taken as candidates. *)
Definition tally_seen (t : Tally) : nat :=
  (skipped_ext t + skipped_scope t + total_candidates t)%nat.

(** The candidates the cleanup has passed over or removed. *)
Definition tally_settled (t : Tally) : nat :=
  (skipped_not_success t + missing_dst t + missing_src t + mismatched t
   + removed t)%nat.

(** ** Input discovery *)

Definition INPUT_EXTS : list string := [".mkv"; ".webm"; ".ogv"].

(** [os.path.isfile] *)
Definition path_isfile (fs : FileSys) (p : string) : bool :=
  match fs !! p with
  | Some n => negb (is_dir n)
  | None => false
  end.

(** [os.path.join(a, b)] of [posixpath], for two components. *)
Definition path_join (a b : string) : string :=
  if String.prefix "/" b then b
  else if negb (Str.truthy a) || ends_with_sep a then a +:+ b
  else a +:+ "/" +:+ b.

(** [os.path.splitext(p)[1].lower() in INPUT_EXTS] *)
Definition recognised (p : string) : bool :=
  str_in (Str.lower (snd (Str.splitext p))) INPUT_EXTS.

(** The [for n in files] loop under one [root] of [os.walk]. *)
Definition walk_dir (entry : string * list string) : list string :=
  map (path_join (fst entry)) (List.filter recognised (snd entry)).

(** The first loop of [collect_inputs].  [walk p] is [os.walk(p)] cut
    down to the pairs of a root and its file names, in the order the
    walk yields them. *)
Fixpoint collect_found (fs : FileSys)
    (walk : string -> list (string * list string)) (paths : list string)
    : list string :=
  match paths with
  | [] => []
  | p :: rest =>
      (if path_isfile fs p && recognised p then [p]
       else if path_isdir fs p then concat (map walk_dir (walk p))
       else [])
      ++ collect_found fs walk rest
  end.

(** The second loop: de-dupe preserving order. *)
Fixpoint dedupe (seen : gset string) (found : list string) : list string :=
  match found with
  | [] => []
  | f :: rest =>
      if bool_decide (f ∈ seen) then dedupe seen rest
      else f :: dedupe ({[f]} ∪ seen) rest
  end.

Definition collect_inputs (fs : FileSys)
    (walk : string -> list (string * list string)) (paths : list string)
    : list string :=
  dedupe ∅ (collect_found fs walk paths).

(** ** Tool resolution *)

(** The first candidate that exists: the [for c in candidates] loops of
    [resolve_media_bins]. *)
Fixpoint first_existing (fs : FileSys) (candidates : list string)
    : option string :=
  match candidates with
  | [] => None
  | c :: rest => if path_exists fs c then Some c else first_existing fs rest
  end.

(** [resolve_media_bins].  [imageio] is what
    [imageio_ffmpeg.get_ffmpeg_exe()] answers, [None] when the import or
    the call raises; [which] is [shutil.which]. *)
Definition resolve_media_bins (script_dir : string) (fs : FileSys)
    (imageio : option string) (which : string -> option string)
    : option string * option string :=
  let ffmpeg_candidates :=
    [path_join script_dir "ffmpeg.exe"; path_join script_dir "ffmpeg"] in
  let ffprobe_candidates :=
    [path_join script_dir "ffprobe.exe"; path_join script_dir "ffprobe"] in
  let ffmpeg_path := first_existing fs ffmpeg_candidates in
  let ffmpeg_path := if opt_truthy ffmpeg_path then ffmpeg_path else imageio in
  let ffmpeg_path :=
    if opt_truthy ffmpeg_path then ffmpeg_path else which "ffmpeg" in
  let ffprobe_path := first_existing fs ffprobe_candidates in
  let ffprobe_path :=
    if opt_truthy ffprobe_path then ffprobe_path else which "ffprobe" in
  (ffmpeg_path, ffprobe_path).

(** ** The options a click builds *)

Definition DEFAULT_CRF : string := "18".
Definition DEFAULT_PRESET : string := "slow".

(** The set filled from the three check boxes. *)
Definition checked_exts (del_mkv del_webm del_ogv : bool) : gset string :=
  (if del_mkv then {[".mkv"]} else ∅)
  ∪ (if del_webm then {[".webm"]} else ∅)
  ∪ (if del_ogv then {[".ogv"]} else ∅).

(** [x or default] on strings. *)
Definition str_or (x default : string) : string :=
  if Str.truthy x then x else default.

(** The [opts] dict of [App.start]; [strip] is [str.strip]. *)
Definition start_options (strip : string -> string)
    (var_crf var_preset var_tune : string)
    (var_lossless var_force var_dryrun var_perm : bool)
    (del_mkv del_webm del_ogv : bool) : Options :=
  let delete_after_policy := checked_exts del_mkv del_webm del_ogv in
  let delete_after_policy :=
    if bool_decide (delete_after_policy = ∅) then None
    else Some delete_after_policy in
  mkOptions var_force var_dryrun var_perm
    (match delete_after_policy with
     | None => PolicyNone
     | Some s => if bool_decide (s = {["all"]}) then PolicyAll else PolicySet s
     end)
    (str_or (strip var_crf) DEFAULT_CRF)
    (str_or (strip var_preset) DEFAULT_PRESET)
    (strip var_tune)
    var_lossless.

(** [App.start] up to the worker: [None] for each of its early returns
    (no tool, an empty list, no input found), else the tasks and the
    options handed to [ConverterWorker]. *)
Definition start `{Env} (fs : FileSys)
    (walk : string -> list (string * list string)) (strip : string -> string)
    (items : list string) (var_crf var_preset var_tune : string)
    (var_lossless var_force var_dryrun var_perm : bool)
    (del_mkv del_webm del_ogv : bool) : option (list string * Options) :=
  if negb (Str.truthy FFMPEG_BIN) then None
  else if negb (list_truthy items) then None
  else
    let inputs := collect_inputs fs walk items in
    if negb (list_truthy inputs) then None
    else Some (inputs,
               start_options strip var_crf var_preset var_tune var_lossless
                 var_force var_dryrun var_perm del_mkv del_webm del_ogv).

(** The policy of [cleanup_from_progress_clicked]: the checked
    extensions, or ["all"] when none is checked and the question is
    answered with yes; [None] when it is answered with no. *)
Definition cleanup_policy (del_mkv del_webm del_ogv askyesno : bool)
    : option Policy :=
  let policy := checked_exts del_mkv del_webm del_ogv in
  if bool_decide (policy = ∅)
  then if negb askyesno then None else Some PolicyAll
  else Some (PolicySet policy).

(** [cleanup_from_progress_clicked], with the pass run in place of the
    thread it starts; the scope is the list box.  An exception of the
    pass ends that thread and goes no further. *)
Definition cleanup_from_progress_clicked `{Env} (scope : list string)
    (del_mkv del_webm del_ogv askyesno var_dryrun var_perm : bool)
    (w : World) : World :=
  match cleanup_policy del_mkv del_webm del_ogv askyesno with
  | None => w
  | Some policy =>
      world_of (cleanup_from_progress policy scope var_perm var_dryrun w)
  end.

(** [len(s)] as an index. *)
Definition slen (s : string) : Z := Z.of_nat (String.length s).

(** ** Fixtures: concrete environments and file systems *)

Module Fixture.

(** The last argument of a command: the destination. *)
Definition out_of (cmd : list string) : string := List.last cmd "".

(** The argument after ["-i"]: the source. *)
Fixpoint in_of (cmd : list string) : string :=
  match cmd with
  | "-i" :: src :: _ => src
  | _ :: rest => in_of rest
  | [] => ""
  end.

(** A tool that writes a 100-byte destination and exits with 0. *)
Definition exec_ok (n : nat) (cmd : list string) (fs : FileSys)
    : option (Z * FileSys) :=
  Some (0, <[out_of cmd := mkNode false 100 (Z.of_nat n)]> fs).




(** A run during which the source goes away (it is moved elsewhere while
    the tool works) although the destination is written. *)
Definition exec_vanish (n : nat) (cmd : list string) (fs : FileSys)
    : option (Z * FileSys) :=
  Some (0, delete (in_of cmd)
             (<[out_of cmd := mkNode false 100 (Z.of_nat n)]> fs)).

Definition toy_dump (db : DB) : list string :=
  "{" :: map fst db ++ ["}"].

Definition mk_env (exec : nat -> list string -> FileSys -> option (Z * FileSys))
    (probe : list Stream) (stored : DB) : Env :=
  {| FFMPEG_BIN := "/opt/ffmpeg";
     PROGRESS_DB_FILE := "/app/progress.json";
     os_sep := "/";
     norm_path := fun p => p;
     ffprobe := fun _ _ _ => probe;
     ffmpeg_exec := exec;
     send2trash_ok := fun _ _ => false;
     clock := fun n => Z.of_nat n;
     json_dump := toy_dump;
     json_loads := fun _ => Some (JsonObject stored);
     stop_is_set := fun _ => false |}.

Definition aac : list Stream := [mkStream (Some "aac")].

Definition sig_a : FileSig := mkSig 10 5.

(** [/v/a.mkv] and its converted [/v/a.mp4]. *)
Definition fs_done : FileSys :=
  <["/v/a.mkv" := mkNode false 10 5]>
    (<["/v/a.mp4" := mkNode false 7 6]>
       (<["/v" := mkNode true 0 1]> ∅)).

(** [/v/a.mkv] alone. *)
Definition fs_fresh : FileSys :=
  <["/v/a.mkv" := mkNode false 10 5]> (<["/v" := mkNode true 0 1]> ∅).


Definition rec_done : ProgressRec := mkRec "/v/a.mp4" true (Some sig_a) 0.
Definition db_done : DB := [("/v/a.mkv", rec_done)].



Definition disk0 : Disk := <["/app/progress.json" := "{...}"]> ∅.

Definition world (fs : FileSys) : World := mkWorld fs disk0 [].

Definition opts0 : Options :=
  mkOptions false false false PolicyNone "18" "slow" "" false.

Definition opts_delete_all : Options :=
  mkOptions false false true PolicyAll "18" "slow" "" false.

Definition opts_dry : Options :=
  mkOptions false true true PolicyAll "18" "slow" "" false.

(** The store on disk holds [db_done]; the tool works. *)
Definition env_done : Env := mk_env exec_ok aac db_done.
(** An empty store; the tool works, the audio is AAC. *)
Definition env_ok : Env := mk_env exec_ok aac [].
(** An empty store; the source goes away during the conversion. *)
Definition env_vanish : Env := mk_env exec_vanish aac [].

Definition src_a : string := "/v/a.mkv".
Definition src_b : string := "/v/b.webm".

(** [/v/a.mkv] and [/v/b.webm], not converted yet. *)
Definition fs_two : FileSys :=
  <[src_b := mkNode false 20 9]> fs_fresh.

(** The store and the file system a first run over both leaves, and the
    environment of a second run that reads that store back. *)
Definition first_run : RunState :=
  @run_loop env_ok opts0 2 [src_a; src_b] (mkRun [] 0 0 0 (world fs_two)).

Definition env_again : Env := mk_env exec_ok aac (r_db first_run).

(** The locals of [run] when the first task starts. *)
Definition start (db : DB) (fs : FileSys) : RunState :=
  mkRun db 0 0 1 (world fs).


(** The environment [env_ok] with a stop request that arrives once [k]
    tasks have been started. *)
Definition env_stop_after (k : nat) : Env :=
  {| FFMPEG_BIN := "/opt/ffmpeg";
     PROGRESS_DB_FILE := "/app/progress.json";
     os_sep := "/";
     norm_path := fun p => p;
     ffprobe := fun _ _ _ => aac;
     ffmpeg_exec := exec_ok;
     send2trash_ok := fun _ _ => false;
     clock := fun n => Z.of_nat n;
     json_dump := toy_dump;
     json_loads := fun _ => Some (JsonObject []);
     stop_is_set := fun idx => (k <=? idx)%nat |}.


(** [/v] holds [a.mkv], [notes.txt] and, below [/v/sub], [B.WEBM]. *)
Definition walk_v (p : string) : list (string * list string) :=
  if String.eqb p "/v"
  then [("/v", ["a.mkv"; "notes.txt"]); ("/v/sub", ["B.WEBM"])]
  else [].


(** One stream spelled in upper case and one without a codec name. *)
Definition env_nameless : Env :=
  mk_env exec_ok [mkStream (Some "AAC"); mkStream None] [].

(** The directory [/v/d.mkv], converted to [/v/d.mp4], holds [x.ogv]. *)
Definition fs_dir : FileSys :=
  <["/v/d.mkv/x.ogv" := mkNode false 30 4]>
    (<["/v/d.mkv" := mkNode true 0 3]>
       (<["/v/d.mp4" := mkNode false 7 6]>
          (<["/v" := mkNode true 0 1]> ∅))).

(** A store with a failed record for [x.ogv] and a record for the
    directory above it that passes every check of the cleanup. *)
Definition db_dir : DB :=
  [("/v/d.mkv/x.ogv", mkRec "/v/d.mkv/x.mp4" false (Some (mkSig 30 4)) 0);
   ("/v/d.mkv", mkRec "/v/d.mp4" true (Some (mkSig 0 3)) 0)].

(** The environment with a trash that takes what it is given and a
    progress file that holds [loaded]. *)
Definition env_loaded (loaded : JsonValue) : Env :=
  {| FFMPEG_BIN := "/opt/ffmpeg";
     PROGRESS_DB_FILE := "/app/progress.json";
     os_sep := "/";
     norm_path := fun p => p;
     ffprobe := fun _ _ _ => aac;
     ffmpeg_exec := exec_ok;
     send2trash_ok := fun _ _ => true;
     clock := fun n => Z.of_nat n;
     json_dump := toy_dump;
     json_loads := fun _ => Some loaded;
     stop_is_set := fun _ => false |}.

Definition env_dir : Env := env_loaded (JsonObject db_dir).

(** The progress file holds a JSON array. *)
Definition env_array : Env := env_loaded (JsonOther true).

End Fixture.

(** * Properties *)

(** ** Strings and the store *)

Lemma string_length_append (a b : string) :
  String.length (a +:+ b) = (String.length a + String.length b)%nat.
Proof. induction a as [|c a IH]; simpl; [reflexivity | now rewrite IH]. Qed.

Lemma tmp_of_neq (path : string) : tmp_of path <> path.
Proof.
  unfold tmp_of. intros E.
  apply (f_equal String.length) in E.
  rewrite string_length_append in E. simpl in E. lia.
Qed.

Lemma dest_path_truthy (src : string) : Str.truthy (dest_path src) = true.
Proof.
  unfold dest_path. destruct (fst (Str.splitext src) +:+ ".mp4") eqn:E.
  - apply (f_equal String.length) in E.
    rewrite string_length_append in E. simpl in E. lia.
  - reflexivity.
Qed.

Lemma sig_eqb_refl (s : FileSig) : sig_eqb s s = true.
Proof. unfold sig_eqb. now rewrite !Z.eqb_refl. Qed.

Lemma sig_eqb_eq (a b : FileSig) : sig_eqb a b = true <-> a = b.
Proof.
  unfold sig_eqb. destruct a as [s1 m1], b as [s2 m2]. simpl.
  rewrite andb_true_iff, !Z.eqb_eq. split.
  - intros [-> ->]. reflexivity.
  - intros E. injection E as -> ->. split; reflexivity.
Qed.

Lemma db_get_set_same (db : DB) (src : string) (r : ProgressRec) :
  db_get (db_set db src r) src = Some r.
Proof.
  induction db as [|[k r0] rest IH]; simpl.
  - now rewrite String.eqb_refl.
  - destruct (String.eqb k src) eqn:E; simpl; rewrite E; [reflexivity | exact IH].
Qed.

Lemma db_get_set_other (db : DB) (src k : string) (r : ProgressRec) :
  k <> src -> db_get (db_set db src r) k = db_get db k.
Proof.
  intros Hne. induction db as [|[k0 r0] rest IH]; simpl.
  - destruct (String.eqb src k) eqn:E; [|reflexivity].
    apply String.eqb_eq in E. congruence.
  - destruct (String.eqb k0 src) eqn:E; simpl.
    + apply String.eqb_eq in E. subst k0.
      destruct (String.eqb src k) eqn:E2; [|reflexivity].
      apply String.eqb_eq in E2. congruence.
    + destruct (String.eqb k0 k); [reflexivity | exact IH].
Qed.

Lemma file_sig_exists (fs : FileSys) (p : string) :
  path_exists fs p = true <-> exists s, file_sig fs p = Some s.
Proof.
  unfold path_exists, file_sig. destruct (fs !! p); split.
  - eauto.
  - reflexivity.
  - discriminate.
  - intros [s Hs]. discriminate.
Qed.

Lemma mark_progress_get `{Env} (db : DB) (fs : FileSys) (src dst : string)
    (ok : bool) (ts : Z) :
  db_get (mark_progress db fs src dst ok ts) src
  = Some (mkRec dst ok (file_sig fs src) ts).
Proof.
  unfold mark_progress. rewrite db_get_set_same.
  unfold path_exists, file_sig. destruct (fs !! src); reflexivity.
Qed.

(** ** The audio predicate *)

(** The characters [str.lower] sends to a given lower-case one. *)
Ltac lower_ascii_cases x :=
  destruct x as [[] [] [] [] [] [] [] []]; vm_compute; intros E;
  first [discriminate E | now left | now right].

Lemma lower_ascii_a (x : ascii) :
  Str.lower_ascii x = "a"%char -> x = "a"%char \/ x = "A"%char.
Proof. lower_ascii_cases x. Qed.

Lemma lower_ascii_c (x : ascii) :
  Str.lower_ascii x = "c"%char -> x = "c"%char \/ x = "C"%char.
Proof. lower_ascii_cases x. Qed.

Lemma lower_ascii_m (x : ascii) :
  Str.lower_ascii x = "m"%char -> x = "m"%char \/ x = "M"%char.
Proof. lower_ascii_cases x. Qed.

Lemma lower_ascii_p (x : ascii) :
  Str.lower_ascii x = "p"%char -> x = "p"%char \/ x = "P"%char.
Proof. lower_ascii_cases x. Qed.

Lemma lower_ascii_3 (x : ascii) :
  Str.lower_ascii x = "3"%char -> x = "3"%char.
Proof.
  destruct x as [[] [] [] [] [] [] [] []]; vm_compute; intros E;
    first [discriminate E | reflexivity].
Qed.

Lemma lower_aac (c : string) : Str.lower c = "aac" <-> In c aac_spellings.
Proof.
  split.
  - destruct c as [|c1 [|c2 [|c3 [|c4 r]]]]; cbn [Str.lower]; intros E;
      try discriminate E.
    injection E as E1 E2 E3.
    apply lower_ascii_a in E1. apply lower_ascii_a in E2.
    apply lower_ascii_c in E3.
    destruct E1 as [-> | ->], E2 as [-> | ->], E3 as [-> | ->];
      cbn; tauto.
  - intros Hin. repeat (destruct Hin as [<-|Hin]; [reflexivity|]).
    destruct Hin.
Qed.

Lemma lower_mp3 (c : string) : Str.lower c = "mp3" <-> In c mp3_spellings.
Proof.
  split.
  - destruct c as [|c1 [|c2 [|c3 [|c4 r]]]]; cbn [Str.lower]; intros E;
      try discriminate E.
    injection E as E1 E2 E3.
    apply lower_ascii_m in E1. apply lower_ascii_p in E2.
    apply lower_ascii_3 in E3. subst c3.
    destruct E1 as [-> | ->], E2 as [-> | ->]; cbn; tauto.
  - intros Hin. repeat (destruct Hin as [<-|Hin]; [reflexivity|]).
    destruct Hin.
Qed.

(** A stream is let through when it has a codec name and that name is a
    spelling of [aac] or of [mp3]. *)
Lemma str_in_audio_ok (s : Stream) :
  str_in (Str.lower (codec_or_empty s)) AUDIO_OK_FOR_MP4 = true
  <-> exists c, codec_name s = Some c
                /\ (In c aac_spellings \/ In c mp3_spellings).
Proof.
  unfold str_in, AUDIO_OK_FOR_MP4, codec_or_empty. cbn [existsb].
  rewrite orb_false_r, orb_true_iff, !String.eqb_eq.
  destruct (codec_name s) as [c|].
  - rewrite lower_aac, lower_mp3. split.
    + intros Hx. exists c. auto.
    + intros (c' & E & Hx). injection E as ->. exact Hx.
  - cbn [Str.lower]. split.
    + intros [Hx|Hx]; discriminate Hx.
    + intros (c' & E & _). discriminate E.
Qed.

Lemma any_incompatible_iff (streams : list Stream) :
  any_incompatible streams = true
  <-> exists s, In s streams
        /\ match codec_name s with
           | Some c => ~ In c aac_spellings /\ ~ In c mp3_spellings
           | None => True
           end.
Proof.
  assert (Hstream : forall s,
            str_in (Str.lower (codec_or_empty s)) AUDIO_OK_FOR_MP4 = false
            <-> match codec_name s with
                | Some c => ~ In c aac_spellings /\ ~ In c mp3_spellings
                | None => True
                end).
  { intros s. rewrite <- not_true_iff_false, str_in_audio_ok.
    destruct (codec_name s) as [c|]; split.
    - intros Hn. split; intros Hin; apply Hn; exists c; auto.
    - intros [Ha Hm] (c' & E & [Hx|Hx]); injection E as ->; auto.
    - auto.
    - intros _ (c' & E & _). discriminate E. }
  induction streams as [|s rest IH]; cbn [any_incompatible In].
  - split; [discriminate | intros [s [[] _]]].
  - destruct (str_in (Str.lower (codec_or_empty s)) AUDIO_OK_FOR_MP4) eqn:E;
      cbn [negb].
    + rewrite IH. split.
      * intros [s' [Hin Hs']]. exists s'. auto.
      * intros [s' [[->|Hin] Hs']]; [|eauto].
        apply Hstream in Hs'. congruence.
    + split; [|reflexivity]. intros _. exists s. split; [now left|].
      apply Hstream. exact E.
Qed.

(** C8. [should_transcode_audio_for_mkv] answers [True] exactly when the
    probed audio-stream list is non-empty and holds a stream whose codec
    name is, in no mix of upper and lower case, [aac] or [mp3]; a stream
    without a codec name is such a stream.  On an empty list it answers
    [False]. *)
Theorem should_transcode_audio_iff `{Env} (fs : FileSys) (src : string) :
  let streams := ffprobe "audio" src fs in
  (should_transcode_audio_for_mkv fs src = true
   <-> streams <> []
       /\ exists s, In s streams
            /\ match codec_name s with
               | Some c => ~ In c aac_spellings /\ ~ In c mp3_spellings
               | None => True
               end)
  /\ (streams = [] -> should_transcode_audio_for_mkv fs src = false).
Proof.
  intros streams. unfold should_transcode_audio_for_mkv, needs_audio_transcode.
  fold streams. split.
  - destruct streams as [|s rest] eqn:E.
    + split; [discriminate | intros [Hne _]; congruence].
    + rewrite any_incompatible_iff. split.
      * intros Hx. split; [discriminate | exact Hx].
      * intros [_ Hx]. exact Hx.
  - intros ->. reflexivity.
Qed.

(** ** The transcode command *)


(** ** Saving the progress store *)

Lemma apply_writes (d : Disk) (tmp acc : string) (chunks : list string) :
  fold_left apply_op (map (OpWrite tmp) chunks) (<[tmp := acc]> d)
  = <[tmp := fold_left String.append chunks acc]> d.
Proof.
  revert acc. induction chunks as [|c rest IH]; intros acc; simpl.
  - reflexivity.
  - rewrite lookup_insert_eq, insert_insert_eq. apply IH.
Qed.

Lemma save_json_ops_length `{Env} (path : string) (data : DB) :
  length (save_json_ops path data) = S (S (length (json_dump data))).
Proof.
  unfold save_json_ops. simpl. rewrite length_app, length_map. simpl. lia.
Qed.

(** The first [S k] writes, while the rename has not happened: the
    temporary file holds the first [k] chunks, nothing else has moved. *)
Lemma save_json_before_rename `{Env} (k : nat) (path : string) (data : DB)
    (d : Disk) :
  (k <= length (json_dump data))%nat ->
  save_json_interrupted (S k) path data d
  = <[tmp_of path := fold_left String.append (firstn k (json_dump data)) ""]> d.
Proof.
  intros Hk. unfold save_json_interrupted, save_json_ops.
  cbn [firstn fold_left apply_op].
  rewrite List.firstn_app, length_map.
  replace (k - length (json_dump data))%nat with 0%nat by lia.
  cbn [firstn]. rewrite app_nil_r, List.firstn_map.
  apply apply_writes.
Qed.

Lemma save_json_all `{Env} (path : string) (data : DB) (d : Disk) :
  save_json path data d
  = <[path := json_text data]> (delete (tmp_of path) d).
Proof.
  unfold save_json, save_json_ops. cbn [fold_left apply_op].
  rewrite fold_left_app, apply_writes. cbn [fold_left apply_op].
  rewrite lookup_insert_eq, delete_insert_eq. reflexivity.
Qed.

Lemma save_json_lookup `{Env} (path : string) (data : DB) (d : Disk) :
  save_json path data d !! path = Some (json_text data).
Proof. rewrite save_json_all. apply lookup_insert_eq. Qed.

Lemma save_json_after_rename `{Env} (n : nat) (path : string) (data : DB)
    (d : Disk) :
  (S (length (json_dump data)) < n)%nat ->
  save_json_interrupted n path data d = save_json path data d.
Proof.
  intros Hn. unfold save_json_interrupted, save_json.
  rewrite List.firstn_all2; [reflexivity|].
  rewrite save_json_ops_length. lia.
Qed.

(** C7. [save_json] writes the whole snapshot to the sibling [.tmp] path
    and then renames it over the canonical path.  Cut short after any
    number [n] of its writes, the canonical file holds what it held before
    (as long as the rename has not happened) or the complete new snapshot
    (once it has); run to its end, it holds the complete new snapshot. *)
Theorem save_json_atomic `{Env} (path : string) (data : DB) (d : Disk) (n : nat) :
  save_json_interrupted n path data d !! path
  = (if (n <=? S (length (json_dump data)))%nat
     then d !! path
     else Some (json_text data))
  /\ save_json path data d !! path = Some (json_text data)
  /\ save_json_ops path data
     = OpOpenW (tmp_of path)
         :: map (OpWrite (tmp_of path)) (json_dump data)
         ++ [OpReplace (tmp_of path) path].
Proof.
  split; [|split; [apply save_json_lookup | reflexivity]].
  destruct (n <=? S (length (json_dump data)))%nat eqn:E.
  - apply Nat.leb_le in E. destruct n as [|k].
    + reflexivity.
    + rewrite save_json_before_rename by lia.
      apply lookup_insert_ne, tmp_of_neq.
  - apply Nat.leb_gt in E.
    rewrite save_json_after_rename by exact E.
    apply save_json_lookup.
Qed.

(** ** Traces *)

Lemma tick_emit (e : Event) (w : World) : tick (emit e w) = S (tick w).
Proof. unfold tick, emit. simpl. rewrite length_app. simpl. lia. Qed.


Lemma processes_app (a b : list Event) :
  processes (a ++ b) = processes a ++ processes b.
Proof. apply List.filter_app. Qed.

Lemma deletions_app (a b : list Event) :
  deletions (a ++ b) = deletions a ++ deletions b.
Proof. apply List.filter_app. Qed.

Lemma intents_app (a b : list Event) :
  intents (a ++ b) = intents a ++ intents b.
Proof. apply List.filter_app. Qed.

Lemma saves_app (a b : list Event) :
  saves (a ++ b) = saves a ++ saves b.
Proof. apply List.filter_app. Qed.

(** ** Arguments of a command *)

Lemma starts_with_iff (needle hay : list string) :
  starts_with needle hay = true <-> exists post, hay = needle ++ post.
Proof.
  revert hay. induction needle as [|n needle IH]; intros hay.
  - cbn. split; eauto.
  - destruct hay as [|h hay]; cbn [starts_with].
    + split; [discriminate | intros [post Hp]; discriminate].
    + rewrite andb_true_iff, String.eqb_eq, IH. split.
      * intros [-> [post ->]]. eauto.
      * intros [post Hp]. cbn in Hp. injection Hp as -> ->. eauto.
Qed.

Lemma has_args_iff (needle hay : list string) :
  has_args needle hay <-> has_argsb needle hay = true.
Proof.
  unfold has_args. induction hay as [|h hay IH]; cbn [has_argsb].
  - rewrite orb_false_r, starts_with_iff. split.
    + intros (pre & post & Hp). destruct pre; [|discriminate].
      cbn in Hp. eauto.
    + intros [post Hp]. exists [], post. exact Hp.
  - rewrite orb_true_iff, starts_with_iff, <- IH. split.
    + intros (pre & post & Hp). destruct pre as [|p pre].
      * left. exists post. exact Hp.
      * right. cbn in Hp. injection Hp as -> ->. eauto.
    + intros [[post Hp]|(pre & post & Hp)].
      * exists [], post. exact Hp.
      * exists (h :: pre), post. rewrite Hp. reflexivity.
Qed.

(** Decide the occurrence of a run of arguments in a command whose
    unknown arguments are compared with literals. *)
Ltac eval_args :=
  cbn [has_argsb starts_with app];
  repeat match goal with
         | |- context [String.eqb ?a ?b] =>
             let v := eval vm_compute in (String.eqb a b) in
             lazymatch v with
             | true => change (String.eqb a b) with true
             | false => change (String.eqb a b) with false
             end
         end;
  cbn [andb orb];
  rewrite ?andb_false_r, ?andb_true_r, ?orb_false_r;
  cbn [andb orb];
  repeat match goal with
         | |- context [String.eqb ?a ?b] => destruct (String.eqb a b)
         end;
  cbn [andb orb].

Ltac args_present := apply has_args_iff; eval_args; reflexivity.

Ltac args_absent :=
  let Hx := fresh "Hx" in
  intros Hx; apply has_args_iff in Hx; revert Hx; eval_args; discriminate.


(** ** The two-stage remux *)

(** Unfold the world updates and bring traces and action counts to the
    forms [tr ++ [e1; ...; en]] and [length tr + n]. *)
Ltac norm_world :=
  unfold ui_safe_log, emit, set_fs, set_disk, tick;
  cbn [w_fs w_disk w_trace fst snd];
  rewrite <- ?app_assoc; cbn [app];
  rewrite ?length_app; cbn [length];
  rewrite <- ?Nat.add_assoc; cbn [Nat.add].

Lemma run_ffmpeg_spec `{Env} (cmd : list string) (w : World) :
  run_ffmpeg_with_streaming cmd w
  = match ffmpeg_exec (tick w + 2) cmd (w_fs w) with
    | Some (rc, fs') =>
        (Some rc,
         mkWorld fs' (w_disk w) (w_trace w ++ ffmpeg_events cmd))
    | None =>
        (None,
         mkWorld (w_fs w) (w_disk w) (w_trace w ++ ffmpeg_events cmd))
    end.
Proof.
  unfold run_ffmpeg_with_streaming, ffmpeg_events. norm_world.
  destruct (ffmpeg_exec (length (w_trace w) + 2) cmd (w_fs w)) as [[rc fs']|];
    reflexivity.
Qed.

Lemma process_mkv_spec `{Env} (src : string) (idx total : nat) (w : World) :
  process_mkv src idx total w
  = match attempt (tick w + 4) (primary_cmd src w) (w_fs w) (dest_path src) with
    | NotStarted =>
        (None,
         mkWorld (w_fs w) (w_disk w)
           (w_trace w
            ++ [EvLog (MsgRemux idx total src); EvProbe "audio" src]
            ++ ffmpeg_events (primary_cmd src w)))
    | Passed fs1 =>
        (Some true,
         mkWorld fs1 (w_disk w)
           (w_trace w
            ++ [EvLog (MsgRemux idx total src); EvProbe "audio" src]
            ++ ffmpeg_events (primary_cmd src w)
            ++ [EvLog (MsgSuccess (dest_path src))]))
    | Missed fs1 =>
        match attempt (tick w + 7) (fallback_cmd src) fs1 (dest_path src) with
        | NotStarted =>
            (None,
             mkWorld fs1 (w_disk w)
               (w_trace w
                ++ [EvLog (MsgRemux idx total src); EvProbe "audio" src]
                ++ ffmpeg_events (primary_cmd src w)
                ++ [EvLog MsgPrimaryFailed]
                ++ ffmpeg_events (fallback_cmd src)))
        | Passed fs2 =>
            (Some true,
             mkWorld fs2 (w_disk w)
               (w_trace w
                ++ [EvLog (MsgRemux idx total src); EvProbe "audio" src]
                ++ ffmpeg_events (primary_cmd src w)
                ++ [EvLog MsgPrimaryFailed]
                ++ ffmpeg_events (fallback_cmd src)
                ++ [EvLog (MsgSuccessFallback (dest_path src))]))
        | Missed fs2 =>
            (Some false,
             mkWorld fs2 (w_disk w)
               (w_trace w
                ++ [EvLog (MsgRemux idx total src); EvProbe "audio" src]
                ++ ffmpeg_events (primary_cmd src w)
                ++ [EvLog MsgPrimaryFailed]
                ++ ffmpeg_events (fallback_cmd src)
                ++ [EvLog (MsgFailed src); EvAppendFailed src]))
        end
    end.
Proof.
  unfold process_mkv, attempt, primary_cmd, fallback_cmd.
  rewrite run_ffmpeg_spec. unfold ffmpeg_events. norm_world.
  destruct (ffmpeg_exec _ _ (w_fs w)) as [[rc1 fs1]|]; [|reflexivity].
  norm_world.
  destruct (conversion_ok rc1 fs1 (dest_path src)); [reflexivity|].
  rewrite run_ffmpeg_spec. unfold ffmpeg_events. norm_world.
  destruct (ffmpeg_exec _ _ fs1) as [[rc2 fs2]|]; [|reflexivity].
  norm_world.
  destruct (conversion_ok rc2 fs2 (dest_path src)); reflexivity.
Qed.

(** ** The transcode path and the dispatch *)

Lemma process_transcode_spec `{Env} (opts : Options) (src : string)
    (idx total : nat) (w : World) :
  process_transcode opts src idx total w
  = match attempt (tick w + 3) (transcode_cmd opts src) (w_fs w)
            (dest_path src) with
    | NotStarted =>
        (None,
         mkWorld (w_fs w) (w_disk w)
           (w_trace w
            ++ [EvLog (MsgTranscode idx total src)]
            ++ ffmpeg_events (transcode_cmd opts src)))
    | Passed fs1 =>
        (Some true,
         mkWorld fs1 (w_disk w)
           (w_trace w
            ++ [EvLog (MsgTranscode idx total src)]
            ++ ffmpeg_events (transcode_cmd opts src)
            ++ [EvLog (MsgSuccess (dest_path src))]))
    | Missed fs1 =>
        (Some false,
         mkWorld fs1 (w_disk w)
           (w_trace w
            ++ [EvLog (MsgTranscode idx total src)]
            ++ ffmpeg_events (transcode_cmd opts src)
            ++ [EvLog (MsgFailed src); EvAppendFailed src]))
    end.
Proof.
  unfold process_transcode, attempt, transcode_cmd.
  rewrite run_ffmpeg_spec. unfold ffmpeg_events. norm_world.
  destruct (ffmpeg_exec _ _ (w_fs w)) as [[rc1 fs1]|]; [|reflexivity].
  norm_world.
  destruct (conversion_ok rc1 fs1 (dest_path src)); reflexivity.
Qed.

Lemma conversion_ok_exists (rc : Z) (fs : FileSys) (dst : string) :
  conversion_ok rc fs dst = true ->
  rc = 0 /\ path_exists fs dst = true /\ 0 < getsize fs dst.
Proof.
  unfold conversion_ok. rewrite !andb_true_iff, Z.eqb_eq, Z.ltb_lt. tauto.
Qed.

Lemma attempt_passed `{Env} (n : nat) (cmd : list string) (fs fs1 : FileSys)
    (dst : string) :
  attempt n cmd fs dst = Passed fs1 -> path_exists fs1 dst = true.
Proof.
  unfold attempt. destruct (ffmpeg_exec n cmd fs) as [[rc fs']|];
    [|discriminate].
  destruct (conversion_ok rc fs' dst) eqn:E; [|discriminate].
  intros Hx. injection Hx as <-. apply conversion_ok_exists in E. tauto.
Qed.


(** What every conversion attempt has in common: it extends the trace by
    events that are neither deletions nor saves and that begin a call of
    [Popen], it leaves the program's own files alone, it ends with an
    existing destination when it answers [True], and it has written one
    line to the failed list exactly when it answers [False]. *)
Lemma process_file_facts `{Env} (opts : Options) (src : string)
    (idx total : nat) (w : World) :
  let r := process_file opts src idx total w in
  exists new,
    w_trace (snd r) = w_trace w ++ new
    /\ deletions new = []
    /\ saves new = []
    /\ w_disk (snd r) = w_disk w
    /\ (fst r = Some true -> path_exists (w_fs (snd r)) (dest_path src) = true)
    /\ (fst r = Some false -> In (EvAppendFailed src) new)
    /\ failed_lines new
       = match fst r with Some false => [src] | _ => [] end
    /\ exists cmd rest, ffmpeg_cmds new = cmd :: rest.
Proof.
  unfold process_file. destruct (String.eqb (ext_of src) ".mkv").
  - rewrite process_mkv_spec.
    destruct (attempt _ _ (w_fs w) _) as [|fs1|fs1] eqn:E1;
      [| |destruct (attempt _ _ fs1 _) as [|fs2|fs2] eqn:E2];
      cbn [fst snd w_trace w_disk w_fs]; eexists;
      (split; [reflexivity|]); (split; [reflexivity|]);
      (split; [reflexivity|]); (split; [reflexivity|]);
      (split; [try discriminate; intros _|]);
      try (eapply attempt_passed; eassumption);
      (split; [try discriminate; intros _; simpl; tauto|]);
      (split; [reflexivity|]); simpl; eauto.
  - rewrite process_transcode_spec.
    destruct (attempt _ _ (w_fs w) _) as [|fs1|fs1] eqn:E1;
      cbn [fst snd w_trace w_disk w_fs]; eexists;
      (split; [reflexivity|]); (split; [reflexivity|]);
      (split; [reflexivity|]); (split; [reflexivity|]);
      (split; [try discriminate; intros _|]);
      try (eapply attempt_passed; eassumption);
      (split; [try discriminate; intros _; simpl; tauto|]);
      (split; [reflexivity|]); simpl; eauto.
Qed.

(** ** Deleting a source *)

Lemma remove_tree_lookup (path : string) (fs : FileSys) (p : string) :
  remove_tree path fs !! p
  = if (if path_isdir fs path then under path p else String.eqb p path)
    then None else fs !! p.
Proof.
  unfold remove_tree. destruct (path_isdir fs path).
  - apply option_eq. intros x. rewrite map_lookup_filter_Some. cbn [fst].
    destruct (under path p); split.
    + intros [_ Hx]. discriminate Hx.
    + discriminate.
    + tauto.
    + auto.
  - destruct (String.eqb_spec p path) as [->|Hne].
    + apply lookup_delete_eq.
    + apply lookup_delete_ne. congruence.
Qed.

Lemma under_refl (path : string) : under path path = true.
Proof. unfold under. now rewrite String.eqb_refl. Qed.

Lemma under_neq (path p : string) : under path p = false -> p <> path.
Proof. intros Hu ->. rewrite under_refl in Hu. discriminate. Qed.


Lemma remove_tree_frame (path : string) (fs : FileSys) (p : string) :
  under path p = false -> remove_tree path fs !! p = fs !! p.
Proof.
  intros Hu. rewrite remove_tree_lookup, Hu.
  apply under_neq, String.eqb_neq in Hu. rewrite Hu.
  destruct (path_isdir fs path); reflexivity.
Qed.



(** The two ways [delete_file] returns and the one way it raises. *)
Lemma delete_file_outcomes `{Env} (fs : FileSys) (path : string)
    (permanent : bool) :
  let trashed := negb permanent && path_exists fs path
                 && send2trash_ok path fs in
  match delete_file fs path permanent with
  | Some (fs', method) =>
      path_exists fs path = true
      /\ fs' = remove_tree path fs
      /\ method = (if trashed then Trashed else Deleted)
      /\ (trashed = false -> path_isdir fs path = false)
  | None =>
      trashed = false
      /\ (path_exists fs path = false \/ path_isdir fs path = true)
  end.
Proof.
  intros trashed. subst trashed.
  unfold delete_file, try_send2trash, os_remove, remove_tree, path_exists,
    path_isdir.
  destruct (fs !! path) as [n|] eqn:E; cbn [andb].
  - destruct permanent; cbn [negb andb];
      [|destruct (send2trash_ok path fs)]; cbn [andb];
      try destruct (is_dir n) eqn:Hd;
      repeat split; auto; try discriminate; try congruence.
  - destruct permanent; cbn [negb andb]; auto.
Qed.

Lemma delete_file_some `{Env} (fs fs' : FileSys) (path : string)
    (permanent : bool) (m : DeleteMethod) :
  delete_file fs path permanent = Some (fs', m) ->
  path_exists fs path = true
  /\ fs' = remove_tree path fs
  /\ (path_isdir fs path = true -> permanent = false).
Proof.
  intros Hd. pose proof (delete_file_outcomes fs path permanent) as Hc.
  cbv zeta in Hc. rewrite Hd in Hc. destruct Hc as (He & Hfs & _ & Hdir).
  split; [exact He|]. split; [exact Hfs|].
  intros Hisdir. destruct permanent; [|reflexivity].
  cbn [negb andb] in Hdir. specialize (Hdir eq_refl). congruence.
Qed.

Lemma delete_file_missing `{Env} (fs : FileSys) (path : string)
    (permanent : bool) :
  path_exists fs path = false -> delete_file fs path permanent = None.
Proof.
  intros Hm. pose proof (delete_file_outcomes fs path permanent) as Hc.
  cbv zeta in Hc.
  destruct (delete_file fs path permanent) as [[fs' m]|]; [|reflexivity].
  destruct Hc as [He _]. congruence.
Qed.

Lemma maybe_delete_source_cases `{Env} (opts : Options) (src : string)
    (w : World) :
  maybe_delete_source opts src w
  = if negb (policy_allows (delete_after_policy opts) (ext_of src))
    then Returned w
    else if dry_run opts
    then Returned (mkWorld (w_fs w) (w_disk w)
                     (w_trace w ++ [EvLog (MsgDryRunSource src)]))
    else match delete_file (w_fs w) src (permanent opts) with
         | Some (fs', method) =>
             Returned (mkWorld fs' (w_disk w)
                         (w_trace w ++ [EvDeleteFile src (permanent opts);
                                        EvLog (MsgRemovedSource method src)]))
         | None =>
             Raised (mkWorld (w_fs w) (w_disk w)
                       (w_trace w ++ [EvDeleteFile src (permanent opts)]))
         end.
Proof.
  unfold maybe_delete_source.
  destruct (negb (policy_allows (delete_after_policy opts) (ext_of src)));
    [reflexivity|].
  destruct (dry_run opts); [reflexivity|]. norm_world.
  destruct (delete_file (w_fs w) src (permanent opts)) as [[fs' m]|];
    norm_world; reflexivity.
Qed.

(** ** One task of the run *)

Lemma run_task_skipped `{Env} (opts : Options) (total : nat) (src : string)
    (st : RunState) :
  skips opts src st = true ->
  run_task opts total src st
  = mkRun (r_db st) (r_success st) (S (r_skipped st)) (r_idx st)
      (mkWorld (w_fs (r_world st)) (w_disk (r_world st))
         (w_trace (r_world st)
          ++ [EvLog (MsgSkipping (r_idx st) total src);
              EvProgress (r_idx st) total; EvProgress (r_idx st) total])).
Proof.
  unfold skips, run_task. intros ->. norm_world. reflexivity.
Qed.

Lemma run_task_processed `{Env} (opts : Options) (total : nat) (src : string)
    (st : RunState) :
  skips opts src st = false ->
  run_task opts total src st
  = finish opts total src st
      (process_file opts src (r_idx st) total (r_world st)).
Proof.
  unfold skips, run_task, finish, after_process, after_crash. intros ->.
  destruct (process_file opts src (r_idx st) total (r_world st))
    as [[ok|] w1]; reflexivity.
Qed.

Lemma already_done_true `{Env} (db : DB) (fs : FileSys) (src dst : string)
    (rec : ProgressRec) (sig : FileSig) :
  db_get db src = Some rec ->
  rec_success rec = true ->
  path_exists fs dst = true ->
  file_sig fs src = Some sig ->
  rec_sig rec = Some sig ->
  already_done db fs src dst = true.
Proof.
  unfold already_done. intros -> -> -> -> ->. simpl. apply sig_eqb_refl.
Qed.

(** C1. A task whose source has a progress record with [success] set,
    whose destination exists and whose current signature equals the stored
    one is, without [force], classified as skipped: the skipped counter
    grows by one, the store, the file system and the converted counter are
    left as they were, and the only actions are the skip log line and the
    progress messages, so no external process is started for it. *)
Theorem already_converted_is_skipped `{Env} (opts : Options) (total : nat)
    (src : string) (st : RunState) (rec : ProgressRec) (sig : FileSig) :
  force opts = false ->
  db_get (r_db st) src = Some rec ->
  rec_success rec = true ->
  path_exists (w_fs (r_world st)) (dest_path src) = true ->
  file_sig (w_fs (r_world st)) src = Some sig ->
  rec_sig rec = Some sig ->
  let st' := run_task opts total src st in
  r_skipped st' = S (r_skipped st)
  /\ r_success st' = r_success st
  /\ r_db st' = r_db st
  /\ w_fs (r_world st') = w_fs (r_world st)
  /\ w_trace (r_world st')
     = w_trace (r_world st)
       ++ [EvLog (MsgSkipping (r_idx st) total src);
           EvProgress (r_idx st) total; EvProgress (r_idx st) total]
  /\ processes (w_trace (r_world st')) = processes (w_trace (r_world st)).
Proof.
  intros Hforce Hrec Hok Hdst Hsig Hsaved st'. subst st'.
  rewrite run_task_skipped.
  - cbn [r_skipped r_success r_db r_world w_fs w_trace].
    repeat split. rewrite processes_app. simpl. apply app_nil_r.
  - unfold skips. rewrite Hforce. simpl.
    eapply already_done_true; eassumption.
Qed.

(** [after_process], path by path. *)
Lemma after_process_spec `{Env} (opts : Options) (total : nat) (src : string)
    (st : RunState) (ok : bool) (w : World) :
  let db1 := mark_progress (r_db st) (w_fs w) src (dest_path src) ok
               (clock (tick w)) in
  let d1 := save_json PROGRESS_DB_FILE db1 (w_disk w) in
  let tr1 := w_trace w ++ [EvSave PROGRESS_DB_FILE db1] in
  let success := if ok then S (r_success st) else r_success st in
  let progress := EvProgress (r_idx st) total in
  after_process opts total src st ok w
  = if deletes_after opts src ok
    then match delete_file (w_fs w) src (permanent opts) with
         | Some (fs', method) =>
             mkRun db1 success (r_skipped st) (r_idx st)
               (mkWorld fs' d1
                  (tr1 ++ [EvDeleteFile src (permanent opts);
                           EvLog (MsgRemovedSource method src); progress]))
         | None =>
             let db2 := mark_progress db1 (w_fs w) src (dest_path src) false
                          (clock (tick w + 5)) in
             mkRun db2 success (r_skipped st) (r_idx st)
               (mkWorld (w_fs w) (save_json PROGRESS_DB_FILE db2 d1)
                  (tr1 ++ [EvDeleteFile src (permanent opts);
                           EvLog (MsgCrash src); EvLog MsgTraceback;
                           EvAppendFailed src;
                           EvSave PROGRESS_DB_FILE db2; progress]))
         end
    else mkRun db1 success (r_skipped st) (r_idx st)
           (mkWorld (w_fs w) d1
              (tr1 ++ (if dry_runs_after opts src ok
                       then [EvLog (MsgDryRunSource src)] else [])
                   ++ [progress])).
Proof.
  unfold after_process, deletes_after, dry_runs_after, on_crash, save_progress.
  rewrite maybe_delete_source_cases.
  destruct ok; cbn [andb]; [|norm_world; reflexivity].
  destruct (policy_truthy (delete_after_policy opts)); cbn [andb];
    [|norm_world; reflexivity].
  destruct (policy_allows (delete_after_policy opts) (ext_of src));
    cbn [andb negb]; [|norm_world; reflexivity].
  destruct (dry_run opts); cbn [negb]; [norm_world; reflexivity|].
  norm_world.
  destruct (delete_file (w_fs w) src (permanent opts)) as [[fs' m]|];
    norm_world; reflexivity.
Qed.

(** After the conversion attempt no further tool is started; the
    converted counter follows the answer; a failed attempt is recorded as
    such. *)
(** The [except] block and the [finally] block after a conversion that
    raised. *)
Lemma after_crash_spec `{Env} (total : nat) (src : string) (st : RunState)
    (w : World) :
  let db1 := mark_progress (r_db st) (w_fs w) src (dest_path src) false
               (clock (tick w + 3)) in
  after_crash total src st w
  = mkRun db1 (r_success st) (r_skipped st) (r_idx st)
      (mkWorld (w_fs w) (save_json PROGRESS_DB_FILE db1 (w_disk w))
         (w_trace w ++ [EvLog (MsgCrash src); EvLog MsgTraceback;
                        EvAppendFailed src; EvSave PROGRESS_DB_FILE db1;
                        EvProgress (r_idx st) total])).
Proof.
  unfold after_crash, on_crash, save_progress. norm_world. reflexivity.
Qed.






(** ** Recording and saving *)

Lemma last_save_snoc (tr post : list Event) (e : Event) :
  is_save e = true -> saves post = [] ->
  last_save (tr ++ e :: post) = Some e.
Proof.
  intros He Hpost. unfold last_save.
  rewrite saves_app. unfold saves at 2. cbn [List.filter]. rewrite He.
  fold (saves post). rewrite Hpost, map_app. cbn [map].
  apply last_last.
Qed.

(** However the task ends once the conversion was attempted, the progress
    file holds the whole store, and the last save of the trace wrote that
    store. *)
Lemma finish_saved `{Env} (opts : Options) (total : nat)
    (src : string) (st : RunState) (r : option bool * World) :
  let st' := finish opts total src st r in
  w_disk (r_world st') !! PROGRESS_DB_FILE = Some (json_text (r_db st'))
  /\ last_save (w_trace (r_world st'))
     = Some (EvSave PROGRESS_DB_FILE (r_db st')).
Proof.
  intros st'. subst st'. destruct r as [[ok|] w]; unfold finish; cbn [fst snd].
  - rewrite after_process_spec.
    destruct (deletes_after opts src ok) eqn:Hd.
    + destruct (delete_file (w_fs w) src (permanent opts)) as [[fs' m]|];
        cbn [r_world r_db w_trace w_disk].
      * split; [apply save_json_lookup|].
        rewrite <- app_assoc. apply last_save_snoc; reflexivity.
      * split; [apply save_json_lookup|].
        rewrite <- app_assoc. cbn [app].
        change (w_trace w ++ ?a :: ?b :: ?c :: ?d :: ?e :: ?f :: ?g)
          with (w_trace w ++ [a; b; c; d; e] ++ f :: g).
        rewrite app_assoc. apply last_save_snoc; reflexivity.
    + cbn [r_world r_db w_trace w_disk]. split; [apply save_json_lookup|].
      rewrite <- app_assoc. apply last_save_snoc; [reflexivity|].
      destruct (dry_runs_after opts src ok); reflexivity.
  - rewrite after_crash_spec. cbn [r_world r_db w_trace w_disk].
    split; [apply save_json_lookup|].
    change (w_trace w ++ [?a; ?b; ?c; ?d; ?e])
      with (w_trace w ++ [a; b; c] ++ d :: [e]).
    rewrite app_assoc. apply last_save_snoc; reflexivity.
Qed.


(** Between two tasks the progress file holds the store: a skipped task
    touches neither, any other task saves what it recorded. *)
Lemma run_task_store_saved `{Env} (opts : Options) (total : nat) (src : string)
    (st : RunState) :
  w_disk (r_world st) !! PROGRESS_DB_FILE = Some (json_text (r_db st)) ->
  w_disk (r_world (run_task opts total src st)) !! PROGRESS_DB_FILE
  = Some (json_text (r_db (run_task opts total src st))).
Proof.
  intros Hinv. destruct (skips opts src st) eqn:Hskip.
  - rewrite run_task_skipped by exact Hskip. exact Hinv.
  - rewrite run_task_processed by exact Hskip.
    apply (finish_saved opts total src st).
Qed.

Lemma run_loop_store_saved `{Env} (opts : Options) (total : nat)
    (tasks : list string) (st : RunState) :
  w_disk (r_world st) !! PROGRESS_DB_FILE = Some (json_text (r_db st)) ->
  w_disk (r_world (run_loop opts total tasks st)) !! PROGRESS_DB_FILE
  = Some (json_text (r_db (run_loop opts total tasks st))).
Proof.
  revert st. induction tasks as [|src rest IH]; intros st Hinv.
  - exact Hinv.
  - cbn [run_loop]. destruct (stop_is_set (r_idx st)).
    + exact Hinv.
    + apply IH. apply run_task_store_saved. exact Hinv.
Qed.

(** ** One record of the cleanup *)

Lemma cleanup_eligible_conditions `{Env} (policy : Policy)
    (scope_paths : list string) (fs : FileSys) (src : string)
    (rec : ProgressRec) :
  cleanup_eligible policy scope_paths fs src rec = true
  <-> policy_allows policy (ext_of src) = true
      /\ (scope_paths = [] \/ is_within fs src scope_paths = true)
      /\ rec_success rec = true
      /\ path_exists fs (effective_dst src rec) = true
      /\ exists sig, file_sig fs src = Some sig /\ rec_sig rec = Some sig.
Proof.
  unfold cleanup_eligible, ext_excluded, policy_allows.
  assert (Hsig : match file_sig fs src with
                 | Some cur => negb (sig_changed (rec_sig rec) cur)
                 | None => false
                 end = true
                 <-> exists sig, file_sig fs src = Some sig
                                 /\ rec_sig rec = Some sig).
  { destruct (file_sig fs src) as [cur|].
    - unfold sig_changed. destruct (rec_sig rec) as [s|].
      + rewrite negb_involutive, sig_eqb_eq. split.
        * intros ->. eauto.
        * intros [sig [Ha Hb]]. congruence.
      + split; [discriminate | intros [sig [_ Hb]]; discriminate].
    - split; [discriminate | intros [sig [Ha _]]; discriminate]. }
  assert (Hscope : negb (list_truthy scope_paths)
                   || is_within fs src scope_paths = true
                   <-> scope_paths = [] \/ is_within fs src scope_paths = true).
  { destruct scope_paths; simpl.
    - tauto.
    - split; [auto | intros [Hx|Hx]; [discriminate | exact Hx]]. }
  assert (Hall : (negb (list_truthy scope_paths)
                  || is_within fs src scope_paths)
                 && rec_success rec
                 && path_exists fs (effective_dst src rec)
                 && path_exists fs src
                 && match file_sig fs src with
                    | Some cur => negb (sig_changed (rec_sig rec) cur)
                    | None => false
                    end = true
                 <-> (scope_paths = [] \/ is_within fs src scope_paths = true)
                     /\ rec_success rec = true
                     /\ path_exists fs (effective_dst src rec) = true
                     /\ exists sig, file_sig fs src = Some sig
                                    /\ rec_sig rec = Some sig).
  { rewrite !andb_true_iff, Hscope, Hsig. split.
    - tauto.
    - intros (Ha & Hb & Hc & sig & Hd & He). repeat split; try assumption.
      + apply file_sig_exists. eauto.
      + eauto. }
  destruct policy as [| |s].
  - split; [discriminate | intros [Hx _]; discriminate].
  - rewrite Hall. tauto.
  - destruct (bool_decide (ext_of src ∈ s)); cbn [negb].
    + rewrite Hall. tauto.
    + split; [discriminate | intros [Hx _]; discriminate].
Qed.

(** A record that passes every check reaches the deletion step. *)
Lemma cleanup_item_eligible `{Env} (policy : Policy)
    (scope_paths : list string) (permanent dry_run : bool) (t : Tally)
    (w : World) (src : string) (rec : ProgressRec) :
  cleanup_eligible policy scope_paths (w_fs w) src rec = true ->
  cleanup_item policy scope_paths permanent dry_run t w (src, rec)
  = if dry_run
    then (bump_candidates t,
          mkWorld (w_fs w) (w_disk w)
            (w_trace w ++ [EvLog (MsgDryRunRemove src)]))
    else match delete_file (w_fs w) src permanent with
         | Some (fs', method) =>
             (bump_removed (bump_candidates t),
              mkWorld fs' (w_disk w)
                (w_trace w ++ [EvDeleteFile src permanent;
                               EvLog (MsgRemoved method src)]))
         | None =>
             (bump_candidates t,
              mkWorld (w_fs w) (w_disk w)
                (w_trace w ++ [EvDeleteFile src permanent;
                               EvLog (MsgErrorRemoving src);
                               EvLog MsgTraceback]))
         end.
Proof.
  unfold cleanup_eligible, cleanup_item.
  destruct (ext_excluded policy (ext_of src)) as [[|]|]; try discriminate.
  rewrite !andb_true_iff. intros [[[[Hscope Hsucc] Hdst] Hsrc] Hsig].
  assert (list_truthy scope_paths
          && negb (is_within (w_fs w) src scope_paths) = false) as ->.
  { destruct (list_truthy scope_paths); [|reflexivity].
    simpl in Hscope. rewrite Hscope. reflexivity. }
  rewrite Hsucc, Hdst, Hsrc. cbn [negb].
  destruct (file_sig (w_fs w) src) as [cur|]; [|discriminate].
  apply negb_true_iff in Hsig. rewrite Hsig.
  destruct dry_run; [norm_world; reflexivity|]. norm_world.
  destruct (delete_file (w_fs w) src permanent) as [[fs' m]|];
    unfold cleanup_error; norm_world; reflexivity.
Qed.

(** A record that fails a check is passed over: the file system and the
    program's files stay as they are, [delete_file] is not called, the
    count of removals does not move. *)
Lemma cleanup_item_ineligible `{Env} (policy : Policy)
    (scope_paths : list string) (permanent dry_run : bool) (t : Tally)
    (w : World) (src : string) (rec : ProgressRec) :
  cleanup_eligible policy scope_paths (w_fs w) src rec = false ->
  exists t1 new,
    cleanup_item policy scope_paths permanent dry_run t w (src, rec)
    = (t1, mkWorld (w_fs w) (w_disk w) (w_trace w ++ new))
    /\ deletions new = []
    /\ intents new = []
    /\ removed t1 = removed t.
Proof.
  unfold cleanup_eligible, cleanup_item, cleanup_error.
  destruct (ext_excluded policy (ext_of src)) as [[|]|].
  - intros _. exists (bump_skipped_ext t), []. rewrite app_nil_r.
    destruct w; repeat split.
  - destruct (list_truthy scope_paths
              && negb (is_within (w_fs w) src scope_paths)) eqn:Hs.
    { intros _. exists (bump_skipped_scope t), []. rewrite app_nil_r.
      destruct w; repeat split. }
    assert (negb (list_truthy scope_paths)
            || is_within (w_fs w) src scope_paths = true) as ->.
    { destruct (list_truthy scope_paths); [|reflexivity].
      simpl in Hs. apply negb_false_iff in Hs. exact Hs. }
    cbn [andb].
    destruct (rec_success rec); cbn [negb andb].
    2:{ intros _. eexists _, [_]. norm_world. repeat split. }
    destruct (path_exists (w_fs w) (effective_dst src rec)); cbn [negb andb].
    2:{ intros _. eexists _, [_]. norm_world. repeat split. }
    destruct (path_exists (w_fs w) src); cbn [negb andb].
    2:{ intros _. eexists _, [_]. norm_world. repeat split. }
    destruct (file_sig (w_fs w) src) as [cur|].
    2:{ intros _. eexists _, [_]. norm_world. repeat split. }
    intros Hc. apply negb_false_iff in Hc. rewrite Hc.
    eexists _, [_]. norm_world. repeat split.
  - intros _. eexists _, [_; _]. norm_world. repeat split.
Qed.

(** ** Scope *)

Lemma within_roots_iff `{Env} (fs : FileSys) (src : string)
    (roots : list string) :
  within_roots fs (norm_path src) roots = true
  <-> exists r, In r roots /\ in_scope_of fs src r.
Proof.
  unfold in_scope_of. induction roots as [|r rest IH]; cbn [within_roots In].
  - split; [discriminate | intros [r [[] _]]].
  - destruct (String.eqb (norm_path src) (norm_path r)) eqn:E1.
    { apply String.eqb_eq in E1. split; [|reflexivity].
      intros _. exists r. auto. }
    apply String.eqb_neq in E1.
    destruct (path_isdir fs (norm_path r)
              && String.prefix (norm_path r +:+ os_sep) (norm_path src)) eqn:E2.
    { apply andb_true_iff in E2. split; [|reflexivity].
      intros _. exists r. auto. }
    rewrite IH. apply andb_false_iff in E2. split.
    + intros [r' [Hin Hr']]. exists r'. auto.
    + intros [r' [[->|Hin] Hr']]; [|eauto].
      destruct Hr' as [Hr'|[Ha Hb]]; [contradiction|].
      destruct E2 as [E2|E2]; congruence.
Qed.


(** ** The cleanup loop *)







(** The pass, read through the loop it runs over the records of the
    progress file: the same file system and program files, and the same
    calls and dry-run lines in the trace, whether it finds nothing to
    clean, runs to its summary or raises on a value it cannot iterate. *)
Lemma cleanup_from_progress_loop `{Env} (policy : Policy)
    (scope_paths : list string) (permanent dry_run : bool) (w : World) :
  let db := records_of (load_json PROGRESS_DB_FILE (w_disk w)) in
  let w0 := ui_safe_log (MsgCleanupStart policy dry_run permanent) w in
  let r := cleanup_loop policy scope_paths permanent dry_run db tally0 w0 in
  let w' := world_of (cleanup_from_progress policy scope_paths permanent
                        dry_run w) in
  w_fs w0 = w_fs w
  /\ w_fs w' = w_fs (snd r)
  /\ w_disk w' = w_disk (snd r)
  /\ forall f : Event -> bool,
       (forall m, (forall x, m <> MsgDryRunRemove x) -> f (EvLog m) = false) ->
       List.filter f (w_trace w0) = List.filter f (w_trace w)
       /\ List.filter f (w_trace w') = List.filter f (w_trace (snd r)).
Proof.
  intros db w0 r w'. subst db w0 r w'. unfold cleanup_from_progress.
  split; [reflexivity|].
  assert (Hlog : forall (f : Event -> bool) (m : Msg) (tr : list Event),
            (forall m, (forall x, m <> MsgDryRunRemove x) -> f (EvLog m) = false) ->
            (forall x, m <> MsgDryRunRemove x) ->
            List.filter f (tr ++ [EvLog m]) = List.filter f tr).
  { intros f m tr Hf Hm. rewrite List.filter_app. cbn [List.filter].
    rewrite (Hf m Hm). apply app_nil_r. }
  destruct (load_json PROGRESS_DB_FILE (w_disk w)) as [[|item rest]|[|]];
    cbn [records_of world_of].
  - cbn [cleanup_loop snd].
    split; [reflexivity|]. split; [reflexivity|]. intros f Hf.
    cbn [ui_safe_log emit w_trace]. rewrite !Hlog by (try exact Hf; discriminate).
    auto.
  - destruct (cleanup_loop policy scope_paths permanent dry_run (item :: rest)
                tally0 (ui_safe_log (MsgCleanupStart policy dry_run permanent) w))
      as [t1 w1].
    cbn [world_of snd]. split; [reflexivity|]. split; [reflexivity|].
    intros f Hf. cbn [ui_safe_log emit w_trace].
    rewrite !Hlog by (try exact Hf; discriminate). auto.
  - cbn [cleanup_loop snd].
    split; [reflexivity|]. split; [reflexivity|]. intros f Hf.
    cbn [ui_safe_log emit w_trace]. rewrite !Hlog by (try exact Hf; discriminate).
    auto.
  - cbn [cleanup_loop snd].
    split; [reflexivity|]. split; [reflexivity|]. intros f Hf.
    cbn [ui_safe_log emit w_trace]. rewrite !Hlog by (try exact Hf; discriminate).
    auto.
Qed.

Lemma is_delete_log (m : Msg) : is_delete (EvLog m) = false.
Proof. reflexivity. Qed.


Lemma is_intent_log (m : Msg) :
  (forall x, m <> MsgDryRunRemove x) -> is_intent (EvLog m) = false.
Proof. destruct m; try reflexivity. intros Hm. now destruct (Hm src). Qed.


(** ** Dry run *)

Lemma cleanup_item_dry `{Env} (policy : Policy) (scope_paths : list string)
    (permanent : bool) (t : Tally) (w : World) (item : string * ProgressRec) :
  let r := cleanup_item policy scope_paths permanent true t w item in
  w_fs (snd r) = w_fs w
  /\ deletions (w_trace (snd r)) = deletions (w_trace w)
  /\ removed (fst r) = removed t
  /\ intents (w_trace (snd r))
     = intents (w_trace w)
       ++ (if cleanup_eligible policy scope_paths (w_fs w) (fst item) (snd item)
           then [EvLog (MsgDryRunRemove (fst item))] else []).
Proof.
  destruct item as [src rec]. intros r. subst r. cbn [fst snd].
  destruct (cleanup_eligible policy scope_paths (w_fs w) src rec) eqn:He.
  - rewrite cleanup_item_eligible by exact He.
    cbn [fst snd w_fs w_trace]. rewrite deletions_app, intents_app. simpl.
    rewrite app_nil_r. auto.
  - destruct (cleanup_item_ineligible policy scope_paths permanent true
                t w src rec He) as (t1 & new & -> & Hdel & Hint & Hrem).
    cbn [fst snd w_fs w_trace].
    rewrite deletions_app, intents_app, Hdel, Hint, !app_nil_r. auto.
Qed.

Lemma cleanup_loop_dry `{Env} (policy : Policy) (scope_paths : list string)
    (permanent : bool) (items : DB) (t : Tally) (w : World) :
  let r := cleanup_loop policy scope_paths permanent true items t w in
  w_fs (snd r) = w_fs w
  /\ deletions (w_trace (snd r)) = deletions (w_trace w)
  /\ removed (fst r) = removed t
  /\ intents (w_trace (snd r))
     = intents (w_trace w)
       ++ map (fun item => EvLog (MsgDryRunRemove (fst item)))
            (List.filter
               (fun item => cleanup_eligible policy scope_paths (w_fs w)
                              (fst item) (snd item))
               items).
Proof.
  revert t w. induction items as [|item rest IH]; intros t w r; subst r.
  - cbn [cleanup_loop fst snd List.filter map]. rewrite app_nil_r. auto.
  - cbn [cleanup_loop].
    pose proof (cleanup_item_dry policy scope_paths permanent t w item) as Hi.
    cbv zeta in Hi.
    destruct (cleanup_item policy scope_paths permanent true t w item)
      as [t1 w1].
    cbn [fst snd] in Hi. destruct Hi as (Hfs & Hd & Hr & Hint).
    specialize (IH t1 w1). cbv zeta in IH.
    destruct IH as (Hfs' & Hd' & Hr' & Hint').
    rewrite Hfs', Hd', Hr', Hint', Hfs, Hd, Hr, Hint.
    repeat split. cbn [List.filter].
    destruct (cleanup_eligible policy scope_paths (w_fs w) (fst item) (snd item));
      cbn [map]; rewrite <- app_assoc; reflexivity.
Qed.

Lemma finish_dry `{Env} (opts : Options) (total : nat) (src : string)
    (st : RunState) (r : option bool * World) :
  dry_run opts = true ->
  let st' := finish opts total src st r in
  w_fs (r_world st') = w_fs (snd r)
  /\ deletions (w_trace (r_world st')) = deletions (w_trace (snd r)).
Proof.
  intros Hdry st'. subst st'. destruct r as [[ok|] w]; unfold finish;
    cbn [fst snd].
  - rewrite after_process_spec.
    unfold deletes_after. rewrite Hdry, andb_false_r.
    cbn [r_world w_fs w_trace]. rewrite !deletions_app.
    destruct (dry_runs_after opts src ok); simpl; rewrite !app_nil_r; auto.
  - rewrite after_crash_spec. cbn [r_world w_fs w_trace].
    rewrite !deletions_app. simpl. rewrite !app_nil_r. auto.
Qed.

(** C3. With [dry_run] set, [delete_file] is never called.  The cleanup
    pass leaves the file system as it is, calls [delete_file] for no
    record and counts no removal, however many records pass its checks:
    for each of them it only logs what it would remove.  The delete-after
    step of the run returns after its log line, and a whole task of the
    run, conversion included, ends without a call of [delete_file]. *)
Theorem dry_run_never_deletes `{Env} :
  (forall policy scope_paths permanent w,
     let db := records_of (load_json PROGRESS_DB_FILE (w_disk w)) in
     let w' := world_of (cleanup_from_progress policy scope_paths permanent
                           true w) in
     w_fs w' = w_fs w
     /\ deletions (w_trace w') = deletions (w_trace w)
     /\ intents (w_trace w')
        = intents (w_trace w)
          ++ map (fun item => EvLog (MsgDryRunRemove (fst item)))
               (List.filter
                  (fun item => cleanup_eligible policy scope_paths (w_fs w)
                                 (fst item) (snd item))
                  db))
  /\ (forall opts src w,
        dry_run opts = true ->
        exists w',
          maybe_delete_source opts src w = Returned w'
          /\ w_fs w' = w_fs w
          /\ deletions (w_trace w') = deletions (w_trace w))
  /\ (forall opts total src st,
        dry_run opts = true ->
        deletions (w_trace (r_world (run_task opts total src st)))
        = deletions (w_trace (r_world st))).
Proof.
  split; [|split].
  - intros policy scope_paths permanent w db w'.
    pose proof (cleanup_from_progress_loop policy scope_paths permanent true w)
      as Hp.
    cbv zeta in Hp. fold db w' in Hp. destruct Hp as (Hfs0 & Hfs & _ & Htr).
    pose proof (cleanup_loop_dry policy scope_paths permanent db tally0
                  (ui_safe_log (MsgCleanupStart policy true permanent) w))
      as Hl.
    cbv zeta in Hl. destruct Hl as (Hfs1 & Hd & _ & Hint).
    destruct (Htr is_delete (fun m _ => is_delete_log m)) as [Hd0 Hd1].
    destruct (Htr is_intent is_intent_log) as [Hi0 Hi1].
    unfold deletions, intents in *.
    rewrite Hfs, Hfs1, Hd1, Hd, Hi1, Hint, Hd0, Hi0, Hfs0. auto.
  - intros opts src w Hdry. rewrite maybe_delete_source_cases, Hdry.
    destruct (negb (policy_allows (delete_after_policy opts) (ext_of src)));
      eexists; (split; [reflexivity|]); cbn [w_fs w_trace];
      [auto|].
    rewrite deletions_app. simpl. rewrite app_nil_r. auto.
  - intros opts total src st Hdry.
    destruct (skips opts src st) eqn:Hskip.
    + rewrite run_task_skipped by exact Hskip. cbn [r_world w_trace].
      rewrite deletions_app. simpl. apply app_nil_r.
    + rewrite run_task_processed by exact Hskip.
      pose proof (process_file_facts opts src (r_idx st) total (r_world st))
        as Hp.
      cbv zeta in Hp. destruct Hp as (new & Htr & Hdel & _).
      pose proof (finish_dry opts total src st
                    (process_file opts src (r_idx st) total (r_world st))
                    Hdry) as Ha.
      cbv zeta in Ha. destruct Ha as [_ Ha].
      rewrite Ha, Htr, deletions_app, Hdel. apply app_nil_r.
Qed.

(** ** Delete-after *)

Lemma policy_allows_truthy (policy : Policy) (ext : string) :
  policy_allows policy ext = true -> policy_truthy policy = true.
Proof.
  destruct policy as [| |s]; cbn [policy_allows policy_truthy];
    [discriminate | reflexivity |].
  intros Hin. apply bool_decide_eq_true in Hin.
  apply negb_true_iff, bool_decide_eq_false. set_solver.
Qed.

(** The record [mark_progress] writes for a converted task, read in the
    file system the conversion leaves: when the source is still there,
    every check of the cleanup passes for it. *)
Lemma fresh_record_eligible `{Env} (policy : Policy) (fs : FileSys)
    (src : string) (ts : Z) :
  policy_allows policy (ext_of src) = true ->
  path_exists fs (dest_path src) = true ->
  path_exists fs src = true ->
  cleanup_eligible policy [] fs src
    (mkRec (dest_path src) true (file_sig fs src) ts) = true.
Proof.
  intros Hpol Hdst Hsrc. apply cleanup_eligible_conditions.
  unfold effective_dst. cbn [rec_dst rec_success rec_sig].
  rewrite dest_path_truthy.
  apply file_sig_exists in Hsrc. destruct Hsrc as [sig Hsig].
  repeat split; eauto.
Qed.

(** C4, as the code has it.  For a task whose conversion succeeded, under
    a delete-after policy that covers its extension, the run calls
    [delete_file] on the source right after the save, once, unless
    [dry_run] is set (then it only logs); none of the checks of the
    cleanup pass is run again.  The record just written has [success] set
    and its destination exists; when the source still exists every check
    of the cleanup pass would pass for it; when the source is gone the
    call is made all the same, raises, deletes nothing, and the task is
    recorded again with [success] unset. *)
Theorem delete_after_calls_delete_file `{Env} (opts : Options) (total : nat)
    (src : string) (st : RunState) :
  skips opts src st = false ->
  fst (process_file opts src (r_idx st) total (r_world st)) = Some true ->
  policy_allows (delete_after_policy opts) (ext_of src) = true ->
  let w1 := snd (process_file opts src (r_idx st) total (r_world st)) in
  let rec1 := mkRec (dest_path src) true (file_sig (w_fs w1) src)
                    (clock (tick w1)) in
  let db1 := mark_progress (r_db st) (w_fs w1) src (dest_path src) true
               (clock (tick w1)) in
  let st' := run_task opts total src st in
  deletions (w_trace (r_world st'))
  = deletions (w_trace (r_world st))
    ++ (if dry_run opts then [] else [EvDeleteFile src (permanent opts)])
  /\ db_get db1 src = Some rec1
  /\ In (EvSave PROGRESS_DB_FILE db1) (w_trace (r_world st'))
  /\ path_exists (w_fs w1) (effective_dst src rec1) = true
  /\ (path_exists (w_fs w1) src = true ->
      cleanup_eligible (delete_after_policy opts) [] (w_fs w1) src rec1 = true)
  /\ (path_exists (w_fs w1) src = false ->
      w_fs (r_world st') = w_fs w1
      /\ (dry_run opts = false ->
          exists rec, db_get (r_db st') src = Some rec
                      /\ rec_success rec = false)).
Proof.
  intros Hskip Hok Hpol w1 rec1 db1 st'. subst st'.
  rewrite run_task_processed by exact Hskip. unfold finish. rewrite Hok.
  fold w1.
  pose proof (process_file_facts opts src (r_idx st) total (r_world st)) as Hp.
  cbv zeta in Hp. fold w1 in Hp.
  destruct Hp as (new & Htr & Hdel & _ & _ & Hdst & _).
  specialize (Hdst Hok).
  rewrite after_process_spec. fold db1.
  unfold deletes_after, dry_runs_after.
  rewrite Hpol, (policy_allows_truthy _ _ Hpol). cbn [andb].
  assert (Hrec : db_get db1 src = Some rec1) by apply mark_progress_get.
  assert (Heff : effective_dst src rec1 = dest_path src).
  { unfold effective_dst, rec1. cbn [rec_dst]. now rewrite dest_path_truthy. }
  rewrite Heff.
  destruct (dry_run opts) eqn:Hdry; cbn [negb].
  - cbn [r_world r_db w_trace w_fs].
    rewrite !deletions_app, Htr, deletions_app, Hdel. simpl.
    rewrite !app_nil_r. repeat split; try assumption.
    + rewrite !in_app_iff. left. right. simpl. auto.
    + intros Hsrc. apply fresh_record_eligible; assumption.
    + discriminate.
  - destruct (delete_file (w_fs w1) src (permanent opts)) as [[fs' m]|] eqn:Hd;
      cbn [r_world r_db w_trace w_fs].
    + rewrite !deletions_app, Htr, deletions_app, Hdel. simpl.
      rewrite !app_nil_r. repeat split; try assumption.
      * rewrite !in_app_iff. left. right. simpl. auto.
      * intros Hsrc. apply fresh_record_eligible; assumption.
      * apply delete_file_some in Hd. destruct Hd as [Hex _]. congruence.
      * apply delete_file_some in Hd. destruct Hd as [Hex _]. congruence.
    + rewrite !deletions_app, Htr, deletions_app, Hdel. simpl.
      rewrite !app_nil_r. repeat split; try assumption.
      * rewrite !in_app_iff. left. right. simpl. auto.
      * intros Hsrc. apply fresh_record_eligible; assumption.
      * intros _. eexists. split; [apply mark_progress_get | reflexivity].
Qed.

(** ** Records without a signature *)






(** * The properties on the fixtures *)

Import Fixture.

(** Evaluate each conjunct of a closed goal. *)
Ltac by_evaluation :=
  repeat (split; [vm_compute; reflexivity|]); vm_compute; reflexivity.

(** ** The model on small inputs *)

Example splitext_mkv : Str.splitext "/v/a.mkv" = ("/v/a", ".mkv").
Proof. reflexivity. Qed.

Example splitext_hidden : Str.splitext "/v/.hidden" = ("/v/.hidden", "").
Proof. reflexivity. Qed.

Example splitext_dotted_dir : Str.splitext "/v.d/a" = ("/v.d/a", "").
Proof. reflexivity. Qed.

Example ext_of_upper : ext_of "/v/A.MKV" = ".mkv".
Proof. reflexivity. Qed.

Example dest_path_webm : dest_path src_b = "/v/b.mp4".
Proof. reflexivity. Qed.

Example audio_aac_only : needs_audio_transcode [mkStream (Some "AAC")] = false.
Proof. reflexivity. Qed.

Example audio_opus_only : needs_audio_transcode [mkStream (Some "opus")] = true.
Proof. reflexivity. Qed.

Example audio_mixed :
  needs_audio_transcode [mkStream (Some "mp3"); mkStream None] = true.
Proof. reflexivity. Qed.

Example audio_none : needs_audio_transcode [] = false.
Proof. reflexivity. Qed.

Example remux_copy_cmd :
  @build_ffmpeg_cmd_remux_mkv env_ok src_a "/v/a.mp4" false false
  = ["/opt/ffmpeg"; "-loglevel"; "warning"; "-hide_banner"; "-nostats"; "-y";
     "-fflags"; "+genpts+discardcorrupt"; "-err_detect"; "ignore_err";
     "-i"; "/v/a.mkv"; "-map"; "0:v?"; "-map"; "0:a?"; "-c:v"; "copy";
     "-c:a"; "copy";
     "-avoid_negative_ts"; "make_zero"; "-movflags"; "+faststart"; "/v/a.mp4"].
Proof. reflexivity. Qed.

Example transcode_default_cmd :
  @transcode_cmd env_ok opts0 src_b
  = ["/opt/ffmpeg"; "-loglevel"; "warning"; "-hide_banner"; "-nostats"; "-y";
     "-fflags"; "+genpts+discardcorrupt"; "-err_detect"; "ignore_err";
     "-i"; "/v/b.webm"; "-map"; "0:v:0?"; "-map"; "0:a:0?"; "-c:v"; "libx264";
     "-preset"; "slow"; "-crf"; "18"; "-pix_fmt"; "yuv420p";
     "-c:a"; "aac"; "-b:a"; "192k";
     "-avoid_negative_ts"; "make_zero"; "-movflags"; "+faststart"; "/v/b.mp4"].
Proof. reflexivity. Qed.

(** A first run over [a.mkv] (AAC audio) and [b.webm]: one remux with
    audio copy, one transcode, both recorded as converted. *)
Example first_run_converts_both :
  ffmpeg_cmds (w_trace (r_world first_run))
  = [@build_ffmpeg_cmd_remux_mkv env_ok src_a "/v/a.mp4" false false;
     @transcode_cmd env_ok opts0 src_b]
  /\ r_success first_run = 2%nat
  /\ map (fun item => (fst item, rec_success (snd item))) (r_db first_run)
     = [(src_a, true); (src_b, true)].
Proof. by_evaluation. Qed.

(** A second run over the same files: two skips, no process, no save. *)
Example second_run_skips_both :
  @run env_again opts0 [src_a; src_b]
    (mkWorld (w_fs (r_world first_run)) disk0 [])
  = Returned
      (mkWorld (w_fs (r_world first_run)) disk0
         [EvLog (MsgSkipping 1 2 src_a); EvProgress 1 2; EvProgress 1 2;
          EvLog (MsgSkipping 2 2 src_b); EvProgress 2 2; EvProgress 2 2;
          EvLog (MsgDone 0 2 2); EvDone]).
Proof. vm_compute. reflexivity. Qed.

(** The trash takes a directory with what it holds: the pass passes over
    the failed record of [x.ogv], then removes the directory above it
    behind all its checks, and [x.ogv] is gone with it. *)
Example cleanup_trashes_what_a_directory_holds :
  let w' := world_of (@cleanup_from_progress env_dir PolicyAll [] false false
                        (world fs_dir)) in
  w_trace w'
  = [EvLog (MsgCleanupStart PolicyAll false false);
     EvLog (MsgNotSuccess "/v/d.mkv/x.ogv");
     EvDeleteFile "/v/d.mkv" false;
     EvLog (MsgRemoved Trashed "/v/d.mkv");
     EvLog (MsgSummary (mkTally 2 1 0 0 0 0 1 0))]
  /\ path_exists fs_dir "/v/d.mkv/x.ogv" = true
  /\ path_exists (w_fs w') "/v/d.mkv/x.ogv" = false
  /\ path_exists (w_fs w') "/v/d.mkv" = false
  /\ path_exists (w_fs w') "/v/d.mp4" = true.
Proof. cbv zeta. by_evaluation. Qed.

(** A progress file that holds an array: the cleanup raises at
    [db.items()], after its first log line. *)
Example cleanup_of_an_array_raises :
  @cleanup_from_progress env_array PolicyAll [] false false (world fs_done)
  = Raised (mkWorld fs_done disk0
              [EvLog (MsgCleanupStart PolicyAll false false)]).
Proof. vm_compute. reflexivity. Qed.

(** [/v/a.mkv] was converted and has not changed: the task is skipped. *)
Lemma already_converted_is_skipped_witness :
  force opts0 = false
  /\ db_get db_done src_a = Some rec_done
  /\ r_skipped (@run_task env_done opts0 1 src_a (start db_done fs_done)) = 1%nat
  /\ processes (w_trace (r_world
                  (@run_task env_done opts0 1 src_a (start db_done fs_done))))
     = [].
Proof.
  pose proof (@already_converted_is_skipped env_done opts0 1%nat src_a
                (start db_done fs_done) rec_done sig_a
                eq_refl eq_refl eq_refl eq_refl eq_refl eq_refl) as Hw.
  cbv zeta in Hw. destruct Hw as (Hs & _ & _ & _ & _ & Hp).
  split; [reflexivity|]. split; [reflexivity|]. split; [exact Hs | exact Hp].
Defined.

(** [AAC] in upper case is let through; the stream without a codec name
    asks for an audio transcode. *)
Lemma should_transcode_audio_iff_witness :
  @ffprobe env_nameless "audio" src_a fs_fresh
  = [mkStream (Some "AAC"); mkStream None]
  /\ @should_transcode_audio_for_mkv env_nameless fs_fresh src_a = true.
Proof.
  split; [reflexivity|].
  apply (proj1 (@should_transcode_audio_iff env_nameless fs_fresh src_a)).
  split; [discriminate|].
  exists (mkStream None). split; [right; now left | exact I].
Defined.







(** With [dry_run] the delete-after step only logs. *)
Lemma dry_run_never_deletes_witness :
  dry_run opts_dry = true
  /\ deletions (w_trace (r_world
                  (@run_task env_ok opts_dry 1 src_a (start [] fs_fresh))))
     = []
  /\ In (EvLog (MsgDryRunSource src_a))
        (w_trace (r_world
                    (@run_task env_ok opts_dry 1 src_a (start [] fs_fresh)))).
Proof.
  split; [reflexivity|]. split.
  - exact (proj2 (proj2 (@dry_run_never_deletes env_ok)) opts_dry 1%nat src_a
             (start [] fs_fresh) eq_refl).
  - vm_compute. tauto.
Defined.

(** A converted task under the policy ["all"]: one call of [delete_file],
    behind a record for which the checks of the cleanup pass. *)
Lemma delete_after_calls_delete_file_witness :
  @skips env_ok opts_delete_all src_a (start [] fs_fresh) = false
  /\ fst (@process_file env_ok opts_delete_all src_a 1 1 (world fs_fresh))
     = Some true
  /\ policy_allows PolicyAll (ext_of src_a) = true
  /\ deletions (w_trace (r_world
                  (@run_task env_ok opts_delete_all 1 src_a (start [] fs_fresh))))
     = [EvDeleteFile src_a true].
Proof.
  pose proof (@delete_after_calls_delete_file env_ok opts_delete_all 1%nat
                src_a (start [] fs_fresh) eq_refl eq_refl eq_refl) as Hw.
  cbv zeta in Hw. destruct Hw as (Hd & _).
  split; [reflexivity|]. split; [reflexivity|]. split; [reflexivity|].
  exact Hd.
Defined.

(** C4, as stated, fails when the source is gone by the end of the
    conversion: the task is converted and the policy covers it, the record
    just written has no signature and the checks of the cleanup reject it
    (an iteration of the cleanup on it calls [delete_file] not once), yet
    the run calls [delete_file]; the call raises and the converted task
    ends up recorded with [success] unset and listed as failed. *)
Lemma delete_after_runs_without_validation :
  let st := start [] fs_fresh in
  let r := @process_file env_vanish opts_delete_all src_a 1 1 (r_world st) in
  let rec1 := mkRec (dest_path src_a) true None 5 in
  let st' := @run_task env_vanish opts_delete_all 1 src_a st in
  fst r = Some true
  /\ policy_allows (delete_after_policy opts_delete_all) (ext_of src_a) = true
  /\ db_get (mark_progress [] (w_fs (snd r)) src_a (dest_path src_a) true
               (@clock env_vanish (tick (snd r)))) src_a
     = Some rec1
  /\ @cleanup_eligible env_vanish PolicyAll [] (w_fs (snd r)) src_a rec1 = false
  /\ deletions (w_trace (snd (@cleanup_item env_vanish PolicyAll [] true false
                                tally0 (snd r) (src_a, rec1))))
     = []
  /\ deletions (w_trace (r_world st')) = [EvDeleteFile src_a true]
  /\ r_db st' = [(src_a, mkRec (dest_path src_a) false None 10)]
  /\ In (EvAppendFailed src_a) (w_trace (r_world st')).
Proof.
  cbv zeta. repeat (split; [vm_compute; reflexivity|]). vm_compute. tauto.
Qed.



(** * Further properties of the engine *)

(** ** The progress store *)

Lemma db_get_none (db : DB) (k : string) :
  db_get db k = None <-> ~ In k (map fst db).
Proof.
  induction db as [|[k0 r0] rest IH]; cbn [db_get map fst In].
  - tauto.
  - destruct (String.eqb k0 k) eqn:E.
    + apply String.eqb_eq in E. split; [discriminate | tauto].
    + apply String.eqb_neq in E. rewrite IH. tauto.
Qed.

Lemma db_set_keys (db : DB) (k x : string) (r : ProgressRec) :
  In x (map fst (db_set db k r)) <-> x = k \/ In x (map fst db).
Proof.
  induction db as [|[k0 r0] rest IH]; cbn [db_set map fst In].
  - intuition.
  - destruct (String.eqb k0 k) eqn:E; cbn [map fst In].
    + apply String.eqb_eq in E. subst k0. intuition.
    + rewrite IH. intuition.
Qed.

Lemma db_set_nodup (db : DB) (k : string) (r : ProgressRec) :
  List.NoDup (map fst db) -> List.NoDup (map fst (db_set db k r)).
Proof.
  induction db as [|[k0 r0] rest IH]; cbn [db_set map fst]; intros Hnd.
  - constructor; [intros [] | constructor].
  - destruct (String.eqb k0 k) eqn:E; cbn [map fst].
    + exact Hnd.
    + apply String.eqb_neq in E. inversion Hnd as [|? ? Hnin Hrest]; subst.
      constructor; [|apply IH, Hrest].
      rewrite db_set_keys. intros [Hx|Hx]; [congruence | contradiction].
Qed.

Lemma db_set_length (db : DB) (k : string) (r : ProgressRec) :
  length (db_set db k r)
  = match db_get db k with
    | Some _ => length db
    | None => S (length db)
    end.
Proof.
  induction db as [|[k0 r0] rest IH]; cbn [db_set db_get length].
  - reflexivity.
  - destruct (String.eqb k0 k); cbn [length]; [reflexivity|].
    rewrite IH. destruct (db_get rest k); reflexivity.
Qed.

(** [already_done] answers [True] exactly when the store holds a record
    for the source with [success] set, the destination exists, the source
    can be stat'ed and its current signature is the recorded one. *)
Lemma already_done_iff (db : DB) (fs : FileSys) (src dst : string) :
  already_done db fs src dst = true
  <-> exists rec sig,
        db_get db src = Some rec
        /\ rec_success rec = true
        /\ path_exists fs dst = true
        /\ file_sig fs src = Some sig
        /\ rec_sig rec = Some sig.
Proof.
  unfold already_done. split.
  - destruct (db_get db src) as [rec|]; [|discriminate].
    destruct (path_exists fs dst); [|discriminate]. cbn [negb].
    destruct (file_sig fs src) as [sig|]; [|discriminate].
    rewrite andb_true_iff. intros [Hs Hm].
    exists rec, sig. repeat split; try assumption.
    unfold sig_matches in Hm. destruct (rec_sig rec) as [s|]; [|discriminate].
    apply sig_eqb_eq in Hm. now subst.
  - intros (rec & sig & -> & -> & -> & -> & ->). simpl. apply sig_eqb_refl.
Qed.

(** X2. [mark_progress] writes the record of one source and no other:
    the new record is the one read back for that source, every other
    source reads what it read before, the keys stay distinct, and the
    store grows by one entry for a new source and not at all for a known
    one. *)
Theorem mark_progress_frame (db : DB) (fs : FileSys) (src dst : string)
    (success : bool) (now : Z) :
  let db' := mark_progress db fs src dst success now in
  db_get db' src = Some (mkRec dst success (file_sig fs src) now)
  /\ (forall k, k <> src -> db_get db' k = db_get db k)
  /\ (List.NoDup (map fst db) -> List.NoDup (map fst db'))
  /\ length db' = match db_get db src with
                  | Some _ => length db
                  | None => S (length db)
                  end.
Proof.
  intros db'. subst db'. split; [|split; [|split]].
  - unfold mark_progress. rewrite db_get_set_same.
    unfold path_exists, file_sig. destruct (fs !! src); reflexivity.
  - intros k Hk. apply db_get_set_other. exact Hk.
  - apply db_set_nodup.
  - apply db_set_length.
Qed.

Lemma mark_progress_frame_witness :
  src_b <> src_a
  /\ db_get (mark_progress db_done fs_done src_a "/v/a.mp4" false 9) src_b
     = db_get db_done src_b.
Proof.
  assert (Hne : src_b <> src_a) by discriminate.
  split; [exact Hne|].
  exact (proj1 (proj2 (mark_progress_frame db_done fs_done src_a "/v/a.mp4"
                         false 9)) src_b Hne).
Defined.

Lemma mark_success_done (db : DB) (fs : FileSys) (src dst : string)
    (now : Z) :
  path_exists fs src = true -> path_exists fs dst = true ->
  already_done (mark_progress db fs src dst true now) fs src dst = true.
Proof.
  intros Hsrc Hdst. apply already_done_iff.
  apply file_sig_exists in Hsrc. destruct Hsrc as [sig Hsig].
  exists (mkRec dst true (file_sig fs src) now), sig.
  split; [|auto].
  unfold mark_progress. rewrite db_get_set_same.
  unfold path_exists, file_sig. destruct (fs !! src); reflexivity.
Qed.

(** X3. Recording a success for a source that exists, with its
    destination in place, makes [already_done] hold in that file system;
    recording a failure makes it fail, whatever the store held before. *)
Theorem mark_then_already_done (db : DB) (fs : FileSys) (src dst : string)
    (now : Z) :
  (path_exists fs src = true -> path_exists fs dst = true ->
   already_done (mark_progress db fs src dst true now) fs src dst = true)
  /\ already_done (mark_progress db fs src dst false now) fs src dst = false.
Proof.
  split.
  - apply mark_success_done.
  - unfold already_done, mark_progress. rewrite db_get_set_same.
    destruct (negb (path_exists fs dst)); [reflexivity|].
    destruct (file_sig fs src); reflexivity.
Qed.

Lemma mark_then_already_done_witness :
  path_exists fs_done src_a = true
  /\ path_exists fs_done "/v/a.mp4" = true
  /\ already_done (mark_progress [] fs_done src_a "/v/a.mp4" true 3)
       fs_done src_a "/v/a.mp4" = true.
Proof.
  split; [reflexivity|]. split; [reflexivity|].
  exact (proj1 (mark_then_already_done [] fs_done src_a "/v/a.mp4" 3)
           eq_refl eq_refl).
Defined.


(** ** The tasks of a run *)

(** The counters and the store after the task, however the conversion
    ended. *)
Lemma finish_locals `{Env} (opts : Options) (total : nat)
    (src : string) (st : RunState) (r : option bool * World) :
  let st' := finish opts total src st r in
  r_skipped st' = r_skipped st
  /\ r_idx st' = r_idx st
  /\ r_success st'
     = match fst r with
       | Some true => S (r_success st)
       | _ => r_success st
       end
  /\ (forall k, k <> src -> db_get (r_db st') k = db_get (r_db st) k)
  /\ (List.NoDup (map fst (r_db st)) -> List.NoDup (map fst (r_db st')))
  /\ (forall k, In k (map fst (r_db st')) <->
                k = src \/ In k (map fst (r_db st))).
Proof.
  intros st'. subst st'. destruct r as [[ok|] w]; unfold finish; cbn [fst snd].
  - rewrite after_process_spec.
    destruct (deletes_after opts src ok) eqn:Hd;
      [assert (ok = true) as ->
         by (unfold deletes_after in Hd; destruct ok;
             [reflexivity | discriminate]);
       destruct (delete_file (w_fs w) src (permanent opts)) as [[fs' m]|]
      |destruct ok];
      cbn [r_skipped r_idx r_success r_db]; unfold mark_progress;
      (split; [reflexivity|]); (split; [reflexivity|]); (split; [reflexivity|]);
      (split; [intros k Hk; rewrite ?db_get_set_other by exact Hk; reflexivity|]);
      (split; [intros Hnd; repeat apply db_set_nodup; exact Hnd|]);
      intros k; rewrite ?db_set_keys; tauto.
  - rewrite after_crash_spec.
    cbn [r_skipped r_idx r_success r_db]; unfold mark_progress.
    split; [reflexivity|]. split; [reflexivity|]. split; [reflexivity|].
    split; [intros k Hk; rewrite ?db_get_set_other by exact Hk; reflexivity|].
    split; [intros Hnd; repeat apply db_set_nodup; exact Hnd|].
    intros k; rewrite ?db_set_keys; tauto.
Qed.

(** The calls of [delete_file] after the conversion: one on the source
    when the delete-after step reaches it, else none, and then the file
    system is the one the conversion left. *)
Lemma finish_deletions `{Env} (opts : Options) (total : nat)
    (src : string) (st : RunState) (r : option bool * World) :
  let st' := finish opts total src st r in
  if match fst r with
     | Some ok => deletes_after opts src ok
     | None => false
     end
  then deletions (w_trace (r_world st'))
       = deletions (w_trace (snd r)) ++ [EvDeleteFile src (permanent opts)]
  else deletions (w_trace (r_world st')) = deletions (w_trace (snd r))
       /\ w_fs (r_world st') = w_fs (snd r).
Proof.
  intros st'. subst st'. destruct r as [[ok|] w]; unfold finish; cbn [fst snd].
  - rewrite after_process_spec.
    destruct (deletes_after opts src ok) eqn:Hd.
    + destruct (delete_file (w_fs w) src (permanent opts)) as [[fs' m]|];
        cbn [r_world w_trace]; rewrite !deletions_app; simpl;
        rewrite ?app_nil_r; reflexivity.
    + cbn [r_world w_trace w_fs]. rewrite !deletions_app.
      destruct (dry_runs_after opts src ok); simpl; rewrite !app_nil_r; auto.
  - rewrite after_crash_spec. cbn [r_world w_trace w_fs].
    rewrite !deletions_app. simpl. rewrite !app_nil_r. auto.
Qed.



(** X4. One task rewrites the record of its own source only: every other
    source reads from the store what it read before, the keys of the store
    stay distinct, and the only key that can be new is the task's. *)
Theorem run_task_store_frame `{Env} (opts : Options) (total : nat)
    (src : string) (st : RunState) :
  let st' := run_task opts total src st in
  (forall k, k <> src -> db_get (r_db st') k = db_get (r_db st) k)
  /\ (List.NoDup (map fst (r_db st)) -> List.NoDup (map fst (r_db st')))
  /\ (forall k, In k (map fst (r_db st')) ->
                k = src \/ In k (map fst (r_db st))).
Proof.
  intros st'. subst st'. destruct (skips opts src st) eqn:Hskip.
  - rewrite run_task_skipped by exact Hskip. cbn [r_db]. auto.
  - rewrite run_task_processed by exact Hskip.
    pose proof (finish_locals opts total src st
                  (process_file opts src (r_idx st) total (r_world st)))
      as Hl.
    cbv zeta in Hl. destruct Hl as (_ & _ & _ & Hother & Hnd & Hkeys).
    split; [exact Hother|]. split; [exact Hnd|].
    intros k Hk. apply Hkeys. exact Hk.
Qed.

Lemma run_task_store_frame_witness :
  src_b <> src_a
  /\ db_get (r_db (@run_task env_ok opts0 1 src_a (start db_done fs_fresh)))
       src_b
     = db_get db_done src_b.
Proof.
  assert (Hne : src_b <> src_a) by discriminate.
  split; [exact Hne|].
  exact (proj1 (@run_task_store_frame env_ok opts0 1%nat src_a
                  (start db_done fs_fresh)) src_b Hne).
Defined.



(** X6. [delete_file] is reached only through a converted task under a
    policy that covers its extension: a skipped task, a task whose
    conversion did not answer [True] (it failed, or the tool could not be
    started) and a task whose extension the policy does not cover (no
    policy and the empty set included) end without a call of
    [delete_file], and with the file system the conversion left. *)
Theorem run_task_never_deletes `{Env} (opts : Options) (total : nat)
    (src : string) (st : RunState) :
  skips opts src st = true
  \/ fst (process_file opts src (r_idx st) total (r_world st)) <> Some true
  \/ policy_allows (delete_after_policy opts) (ext_of src) = false ->
  let st' := run_task opts total src st in
  deletions (w_trace (r_world st')) = deletions (w_trace (r_world st))
  /\ w_fs (r_world st')
     = (if skips opts src st then w_fs (r_world st)
        else w_fs (snd (process_file opts src (r_idx st) total (r_world st)))).
Proof.
  intros Hcase st'. subst st'. destruct (skips opts src st) eqn:Hskip.
  - rewrite run_task_skipped by exact Hskip. cbn [r_world w_trace w_fs].
    rewrite deletions_app. simpl. rewrite app_nil_r. auto.
  - destruct Hcase as [Hx|Hcase]; [discriminate|].
    rewrite run_task_processed by exact Hskip.
    pose proof (process_file_facts opts src (r_idx st) total (r_world st))
      as Hp.
    cbv zeta in Hp. destruct Hp as (new & Htr & Hd & _).
    pose proof (finish_deletions opts total src st
                  (process_file opts src (r_idx st) total (r_world st))) as Hf.
    cbv zeta in Hf.
    assert (match fst (process_file opts src (r_idx st) total (r_world st)) with
            | Some ok => deletes_after opts src ok
            | None => false
            end = false) as Hno.
    { destruct (fst (process_file opts src (r_idx st) total (r_world st)))
        as [[|]|]; try reflexivity.
      unfold deletes_after. destruct Hcase as [Hx | ->]; [congruence|].
      rewrite andb_false_r. reflexivity. }
    rewrite Hno in Hf. destruct Hf as [-> ->].
    rewrite Htr, deletions_app, Hd, app_nil_r. auto.
Qed.

Lemma run_task_never_deletes_witness :
  policy_allows (delete_after_policy opts0) (ext_of src_a) = false
  /\ deletions (w_trace (r_world
        (@run_task env_ok opts0 1 src_a (start [] fs_fresh)))) = [].
Proof.
  split; [reflexivity|].
  exact (proj1 (@run_task_never_deletes env_ok opts0 1%nat src_a
                  (start [] fs_fresh) (or_intror (or_intror eq_refl)))).
Defined.

(** X7. A converted source is skipped by the very next task on it: when
    the conversion succeeded, the source was not deleted afterwards (the
    policy does not cover it, or [dry_run] is set) and still exists, the
    state the task leaves satisfies the skip test under [force] off. *)
Theorem converted_then_skipped `{Env} (opts : Options) (total : nat)
    (src : string) (st : RunState) :
  force opts = false ->
  skips opts src st = false ->
  fst (process_file opts src (r_idx st) total (r_world st)) = Some true ->
  policy_allows (delete_after_policy opts) (ext_of src) = false
  \/ dry_run opts = true ->
  path_exists (w_fs (snd (process_file opts src (r_idx st) total (r_world st))))
    src = true ->
  skips opts src (run_task opts total src st) = true.
Proof.
  intros Hforce Hskip Hok Hkeep Hsrc.
  rewrite run_task_processed by exact Hskip.
  pose proof (process_file_facts opts src (r_idx st) total (r_world st)) as Hp.
  cbv zeta in Hp. destruct Hp as (new & _ & _ & _ & _ & Hdst & _).
  specialize (Hdst Hok). unfold finish. rewrite Hok.
  set (w1 := snd (process_file opts src (r_idx st) total (r_world st))) in *.
  rewrite after_process_spec.
  assert (deletes_after opts src true = false) as ->.
  { unfold deletes_after. destruct Hkeep as [-> | ->];
      rewrite ?andb_false_r; reflexivity. }
  unfold skips. rewrite Hforce. cbn [negb andb r_db r_world w_fs].
  apply mark_success_done; assumption.
Qed.

Lemma converted_then_skipped_witness :
  force opts0 = false
  /\ @skips env_ok opts0 src_a (start [] fs_fresh) = false
  /\ @skips env_ok opts0 src_a
       (@run_task env_ok opts0 1 src_a (start [] fs_fresh)) = true.
Proof.
  split; [reflexivity|]. split; [reflexivity|].
  exact (@converted_then_skipped env_ok opts0 1%nat src_a (start [] fs_fresh)
           eq_refl eq_refl eq_refl (or_introl eq_refl) eq_refl).
Defined.


(** ** The loop of a run *)


Lemma run_task_counters `{Env} (opts : Options) (total : nat) (src : string)
    (st : RunState) :
  let st' := run_task opts total src st in
  r_idx st' = r_idx st
  /\ (r_success st <= r_success st')%nat
  /\ (r_skipped st <= r_skipped st')%nat
  /\ (r_success st' + r_skipped st' <= S (r_success st + r_skipped st))%nat.
Proof.
  intros st'. subst st'. destruct (skips opts src st) eqn:Hskip.
  - rewrite run_task_skipped by exact Hskip.
    cbn [r_idx r_success r_skipped]. lia.
  - rewrite run_task_processed by exact Hskip.
    pose proof (finish_locals opts total src st
                  (process_file opts src (r_idx st) total (r_world st)))
      as Hl.
    cbv zeta in Hl. destruct Hl as (Hs & Hi & Hc & _).
    rewrite Hs, Hi, Hc.
    destruct (fst (process_file opts src (r_idx st) total (r_world st)))
      as [[|]|]; lia.
Qed.

(** The loop over [pre ++ post] when no stop request arrives while the
    tasks of [pre] are started. *)
Lemma run_loop_app `{Env} (opts : Options) (total : nat)
    (pre post : list string) (st : RunState) :
  (forall j, (j < length pre)%nat -> stop_is_set (r_idx st + j) = false) ->
  run_loop opts total (pre ++ post) st
  = run_loop opts total post (run_loop opts total pre st)
  /\ r_idx (run_loop opts total pre st) = (r_idx st + length pre)%nat.
Proof.
  revert st. induction pre as [|src rest IH]; intros st Hstop.
  - cbn [app run_loop length]. split; [reflexivity | lia].
  - cbn [app run_loop length].
    pose proof (Hstop 0%nat) as H0. rewrite Nat.add_0_r in H0.
    rewrite H0 by (cbn [length]; lia).
    set (st1 := run_task opts total src
                  (mkRun (r_db st) (r_success st) (r_skipped st)
                     (S (r_idx st)) (r_world st))).
    assert (Hidx : r_idx st1 = S (r_idx st)).
    { subst st1. apply (run_task_counters opts total src). }
    destruct (IH st1) as [Happ Hlen].
    { intros j Hj. rewrite Hidx.
      replace (S (r_idx st) + j)%nat with (r_idx st + S j)%nat by lia.
      apply Hstop. cbn [length]. lia. }
    split; [exact Happ|]. rewrite Hlen, Hidx. lia.
Qed.

(** X8. Cancellation is looked at between tasks only.  When the stop
    request is first seen after the tasks of [pre] have been started, the
    run over [pre ++ post] is the run over [pre] followed by the one log
    line of the stop: no task of [post] is started, logged or recorded. *)
Theorem stop_halts_between_tasks `{Env} (opts : Options) (total : nat)
    (pre post : list string) (st : RunState) :
  (forall j, (j < length pre)%nat -> stop_is_set (r_idx st + j) = false) ->
  stop_is_set (r_idx st + length pre) = true ->
  post <> [] ->
  run_loop opts total (pre ++ post) st
  = stopped (run_loop opts total pre st).
Proof.
  intros Hgo Hstop Hpost.
  destruct (run_loop_app opts total pre post st Hgo) as [-> Hidx].
  destruct post as [|src rest]; [congruence|].
  cbn [run_loop].
  destruct (stop_is_set (r_idx (run_loop opts total pre st))) eqn:E;
    [reflexivity|].
  rewrite Hidx in E. congruence.
Qed.

Lemma stop_halts_between_tasks_witness :
  @stop_is_set (env_stop_after 1) 0 = false
  /\ @stop_is_set (env_stop_after 1) 1 = true
  /\ @run_loop (env_stop_after 1) opts0 2 [src_a; src_b]
       (mkRun [] 0 0 0 (world fs_two))
     = stopped (@run_loop (env_stop_after 1) opts0 2 [src_a]
                  (mkRun [] 0 0 0 (world fs_two))).
Proof.
  split; [reflexivity|]. split; [reflexivity|].
  apply (@stop_halts_between_tasks (env_stop_after 1) opts0 2%nat
           [src_a] [src_b] (mkRun [] 0 0 0 (world fs_two))).
  - intros j Hj. cbn [length] in Hj.
    assert (j = 0%nat) as -> by lia. reflexivity.
  - reflexivity.
  - discriminate.
Defined.




(** A run over a store that holds valid JSON other than an object, with
    [force] on: the first task is converted, then the run raises. *)
Example forced_run_over_an_array :
  exists w',
    @run env_array (mkOptions true false false PolicyNone "18" "slow" "" false)
      [src_a; src_b] (world fs_two) = Raised w'
    /\ path_exists (w_fs w') "/v/a.mp4" = true
    /\ path_exists (w_fs w') "/v/b.mp4" = false
    /\ saves (w_trace w') = []
    /\ List.last (w_trace w') EvDone = EvProgress 1 2.
Proof. eexists. split; [vm_compute; reflexivity|]. by_evaluation. Qed.




(** X11. A run rewrites the records of its own tasks only: the record of
    a source that is not among the tasks reads after the loop as it read
    before, and the keys of the store stay distinct. *)
Theorem run_loop_store_frame `{Env} (opts : Options) (total : nat)
    (tasks : list string) (st : RunState) :
  let st' := run_loop opts total tasks st in
  (forall k, ~ In k tasks -> db_get (r_db st') k = db_get (r_db st) k)
  /\ (List.NoDup (map fst (r_db st)) -> List.NoDup (map fst (r_db st'))).
Proof.
  revert st. induction tasks as [|src rest IH]; intros st st'; subst st'.
  - cbn [run_loop]. auto.
  - cbn [run_loop]. destruct (stop_is_set (r_idx st)); [cbn [r_db]; auto|].
    set (st0 := mkRun (r_db st) (r_success st) (r_skipped st)
                  (S (r_idx st)) (r_world st)).
    assert (Hframe :
      (forall k, k <> src ->
                 db_get (r_db (run_task opts total src st0)) k
                 = db_get (r_db st) k)
      /\ (List.NoDup (map fst (r_db st)) ->
          List.NoDup (map fst (r_db (run_task opts total src st0))))).
    { destruct (skips opts src st0) eqn:Hskip.
      - rewrite run_task_skipped by exact Hskip. cbn [r_db]. auto.
      - rewrite run_task_processed by exact Hskip.
        pose proof (finish_locals opts total src st0
                      (process_file opts src (r_idx st0) total (r_world st0)))
          as Hl.
        cbv zeta in Hl. destruct Hl as (_ & _ & _ & Hother & Hnd & _).
        split; [exact Hother | exact Hnd]. }
    destruct Hframe as [Hother Hnd].
    specialize (IH (run_task opts total src st0)). cbv zeta in IH.
    destruct IH as [IHother IHnd]. split.
    + intros k Hk. rewrite IHother by (intros Hin; apply Hk; now right).
      apply Hother. intros ->. apply Hk. now left.
    + intros Hx. apply IHnd, Hnd, Hx.
Qed.

Lemma run_loop_store_frame_witness :
  ~ In "/v/c.ogv" [src_a; src_b]
  /\ db_get (r_db (@run_loop env_ok opts0 2 [src_a; src_b]
                     (mkRun [] 0 0 0 (world fs_two)))) "/v/c.ogv"
     = None.
Proof.
  assert (Hn : ~ In "/v/c.ogv" [src_a; src_b])
    by (intros [Hx|[Hx|[]]]; discriminate Hx).
  split; [exact Hn|].
  exact (proj1 (@run_loop_store_frame env_ok opts0 2%nat [src_a; src_b]
                  (mkRun [] 0 0 0 (world fs_two))) "/v/c.ogv" Hn).
Defined.


(** ** The transcode path *)




(** ** Saving and loading *)

(** X13. What [save_json] writes, [load_json] reads back: when
    [json.loads] inverts [json.dump] on the store and the dump is not
    empty, loading after a complete save returns the store.  The save
    leaves no [.tmp] file behind and touches no other file. *)
Theorem save_then_load `{Env} (path : string) (data : DB) (d : Disk) :
  json_loads (json_text data) = Some (JsonObject data) ->
  Str.truthy (json_text data) = true ->
  load_json path (save_json path data d) = JsonObject data
  /\ save_json path data d !! tmp_of path = None
  /\ (forall p, p <> path -> p <> tmp_of path ->
                save_json path data d !! p = d !! p).
Proof.
  intros Hloads Htext. rewrite save_json_all. split; [|split].
  - unfold load_json. rewrite lookup_insert_eq, Htext, Hloads. reflexivity.
  - rewrite lookup_insert_ne by (intros E; symmetry in E;
                                  exact (tmp_of_neq path E)).
    apply lookup_delete_eq.
  - intros p Hp Ht. rewrite lookup_insert_ne by congruence.
    apply lookup_delete_ne. congruence.
Qed.

Lemma save_then_load_witness :
  @json_loads env_done (@json_text env_done db_done)
  = Some (JsonObject db_done)
  /\ Str.truthy (@json_text env_done db_done) = true
  /\ @load_json env_done "/app/progress.json"
       (@save_json env_done "/app/progress.json" db_done ∅)
     = JsonObject db_done.
Proof.
  split; [reflexivity|]. split; [reflexivity|].
  exact (proj1 (@save_then_load env_done "/app/progress.json" db_done ∅
                  eq_refl eq_refl)).
Defined.

(** ** The commands *)

(** X14. The remux command never re-encodes video ([-c:v copy]).  With
    [transcode_audio] unset the audio is copied and no AAC encoder or
    bitrate is asked for; with it set the audio goes to AAC at 192k with
    the resampling filter and is not copied.  Text subtitles are mapped
    exactly when [keep_text_subs] is set. *)
Theorem remux_cmd_streams `{Env} (src dst : string) (keep_text_subs : bool) :
  let copy := build_ffmpeg_cmd_remux_mkv src dst false keep_text_subs in
  let aac := build_ffmpeg_cmd_remux_mkv src dst true keep_text_subs in
  has_args ["-c:v"; "copy"] copy /\ has_args ["-c:v"; "copy"] aac
  /\ has_args ["-c:a"; "copy"] copy
  /\ ~ has_args ["-c:a"; "aac"] copy
  /\ ~ has_args ["-b:a"; AUDIO_BITRATE] copy
  /\ has_args ["-c:a"; "aac"; "-b:a"; "192k";
               "-af"; "aresample=async=1:first_pts=0"] aac
  /\ ~ has_args ["-c:a"; "copy"] aac
  /\ (has_args ["-map"; "0:s?"; "-c:s"; "mov_text"] copy
      <-> keep_text_subs = true)
  /\ (has_args ["-map"; "0:s?"; "-c:s"; "mov_text"] aac
      <-> keep_text_subs = true).
Proof.
  intros copy aac. subst copy aac. unfold build_ffmpeg_cmd_remux_mkv.
  split; [destruct keep_text_subs; args_present|].
  split; [destruct keep_text_subs; args_present|].
  split; [destruct keep_text_subs; args_present|].
  split; [destruct keep_text_subs; args_absent|].
  split; [destruct keep_text_subs; args_absent|].
  split; [destruct keep_text_subs; args_present|].
  split; [destruct keep_text_subs; args_absent|].
  split; (destruct keep_text_subs;
          (split; [first [reflexivity | args_absent]
                  | first [discriminate | intros _; args_present]])).
Qed.


(** X15. Both builders frame their command the same way: the tool first,
    then the fixed logging, overwrite ([-y]) and recovery flags and
    [-i src]; at the end the timestamp and fast-start flags and the
    destination as the last argument.  They differ in between only. *)
Theorem cmd_shape `{Env} (src dst crf preset : string) (tune : option string)
    (transcode_audio keep_text_subs lossless : bool) :
  let head := [FFMPEG_BIN; "-loglevel"; "warning"; "-hide_banner"; "-nostats";
               "-y"; "-fflags"; "+genpts+discardcorrupt";
               "-err_detect"; "ignore_err"; "-i"; src] in
  let tail := ["-avoid_negative_ts"; "make_zero"; "-movflags"; "+faststart";
               dst] in
  (exists mid,
     build_ffmpeg_cmd_remux_mkv src dst transcode_audio keep_text_subs
     = head ++ mid ++ tail)
  /\ (exists mid,
        build_ffmpeg_cmd_transcode src dst crf preset tune lossless
        = head ++ mid ++ tail)
  /\ List.last (build_ffmpeg_cmd_remux_mkv src dst transcode_audio
                  keep_text_subs) "" = dst
  /\ List.last (build_ffmpeg_cmd_transcode src dst crf preset tune lossless) ""
     = dst.
Proof.
  intros head tail. subst head tail.
  unfold build_ffmpeg_cmd_remux_mkv, build_ffmpeg_cmd_transcode.
  split; [|split; [|split]].
  - match goal with
    | |- exists mid, ?cmd = _ =>
        exists (firstn (length cmd - 17) (skipn 12 cmd))
    end.
    destruct transcode_audio, keep_text_subs; reflexivity.
  - match goal with
    | |- exists mid, ?cmd = _ =>
        exists (firstn (length cmd - 17) (skipn 12 cmd))
    end.
    destruct lossless, (opt_truthy tune); reflexivity.
  - destruct transcode_audio, keep_text_subs; reflexivity.
  - destruct lossless, (opt_truthy tune); reflexivity.
Qed.

(** X16. The transcode command always re-encodes: video with libx264 in
    the 4:2:0 pixel format, audio to AAC at 192k, from the first video and
    the first audio stream only; it never copies a stream.  Under
    [lossless] an empty preset is replaced by [veryslow]. *)
Theorem transcode_cmd_streams `{Env} (src dst crf preset : string)
    (tune : option string) (lossless : bool) :
  let cmd := build_ffmpeg_cmd_transcode src dst crf preset tune lossless in
  has_args ["-map"; "0:v:0?"; "-map"; "0:a:0?"; "-c:v"; "libx264"] cmd
  /\ has_args ["-pix_fmt"; "yuv420p"] cmd
  /\ has_args ["-c:a"; "aac"; "-b:a"; "192k"] cmd
  /\ ~ has_args ["-c:v"; "copy"] cmd
  /\ ~ has_args ["-c:a"; "copy"] cmd
  /\ has_args ["-preset"; "veryslow"; "-crf"; "0"]
       (build_ffmpeg_cmd_transcode src dst crf "" tune true).
Proof.
  intros cmd. subst cmd. unfold build_ffmpeg_cmd_transcode.
  split; [destruct lossless, (opt_truthy tune); args_present|].
  split; [destruct lossless, (opt_truthy tune); args_present|].
  split; [destruct lossless, (opt_truthy tune); args_present|].
  split; [destruct lossless, (opt_truthy tune); args_absent|].
  split; [destruct lossless, (opt_truthy tune); args_absent|].
  cbn [Str.truthy]. destruct (opt_truthy tune); args_present.
Qed.

(** ** Deleting *)


(** The trash takes a directory with what it holds. *)
Example delete_file_trashes_a_directory :
  option_map (fun r => (path_exists (fst r) "/v/d.mkv",
                        path_exists (fst r) "/v/d.mkv/x.ogv",
                        path_exists (fst r) "/v/d.mp4", snd r))
    (@delete_file env_dir fs_dir "/v/d.mkv" false)
  = Some (false, false, true, Trashed).
Proof. vm_compute. reflexivity. Qed.


(** ** The cleanup pass, counted *)

Lemma cleanup_errors_app (a b : list Event) :
  cleanup_errors (a ++ b) = cleanup_errors a ++ cleanup_errors b.
Proof. apply List.filter_app. Qed.

(** One iteration under a policy that is ["all"] or a set: the record is
    counted once as seen, and when it is taken as a candidate it is
    settled by exactly one counter, one dry-run line or one error line. *)
Lemma cleanup_item_accounts `{Env} (policy : Policy)
    (scope_paths : list string) (permanent dry_run : bool) (t : Tally)
    (w : World) (item : string * ProgressRec) :
  policy <> PolicyNone ->
  let r := cleanup_item policy scope_paths permanent dry_run t w item in
  tally_seen (fst r) = S (tally_seen t)
  /\ (total_candidates (fst r) + tally_settled t
      + length (intents (w_trace w)) + length (cleanup_errors (w_trace w))
      = total_candidates t + tally_settled (fst r)
        + length (intents (w_trace (snd r)))
        + length (cleanup_errors (w_trace (snd r))))%nat
  /\ w_disk (snd r) = w_disk w
  /\ (forall p, under (fst item) p = false ->
                w_fs (snd r) !! p = w_fs w !! p).
Proof.
  intros Hpol r. subst r. destruct item as [src rec]. cbn [fst].
  unfold cleanup_item, cleanup_error, tally_seen, tally_settled.
  destruct (ext_excluded policy (ext_of src)) as [[|]|] eqn:Hex.
  - cbn [fst snd bump_skipped_ext skipped_ext skipped_scope total_candidates
         skipped_not_success missing_dst missing_src mismatched removed].
    repeat split; lia.
  - destruct (list_truthy scope_paths
              && negb (is_within (w_fs w) src scope_paths)).
    { cbn. repeat split; lia. }
    destruct (negb (rec_success rec)).
    { norm_world. rewrite !intents_app, !cleanup_errors_app, !length_app.
      cbn. repeat split; lia. }
    destruct (negb (path_exists (w_fs w) (effective_dst src rec))).
    { norm_world. rewrite !intents_app, !cleanup_errors_app, !length_app.
      cbn. repeat split; lia. }
    destruct (negb (path_exists (w_fs w) src)).
    { norm_world. rewrite !intents_app, !cleanup_errors_app, !length_app.
      cbn. repeat split; lia. }
    destruct (file_sig (w_fs w) src) as [cur|].
    2:{ norm_world. rewrite !intents_app, !cleanup_errors_app, !length_app.
        cbn. repeat split; lia. }
    destruct (sig_changed (rec_sig rec) cur).
    { norm_world. rewrite !intents_app, !cleanup_errors_app, !length_app.
      cbn. repeat split; lia. }
    destruct dry_run.
    { norm_world. rewrite !intents_app, !cleanup_errors_app, !length_app.
      cbn. repeat split; lia. }
    norm_world.
    destruct (delete_file (w_fs w) src permanent) as [[fs' m]|] eqn:Hd.
    + apply delete_file_some in Hd. destruct Hd as (_ & -> & _).
      norm_world. rewrite !intents_app, !cleanup_errors_app, !length_app.
      cbn. repeat split; try lia.
      intros p Hp. apply remove_tree_frame. exact Hp.
    + norm_world. rewrite !intents_app, !cleanup_errors_app, !length_app.
      cbn. repeat split; lia.
  - exfalso. destruct policy; try discriminate. congruence.
Qed.

Lemma cleanup_loop_accounts `{Env} (policy : Policy)
    (scope_paths : list string) (permanent dry_run : bool) (items : DB)
    (t : Tally) (w : World) :
  policy <> PolicyNone ->
  let r := cleanup_loop policy scope_paths permanent dry_run items t w in
  tally_seen (fst r) = (tally_seen t + length items)%nat
  /\ (total_candidates (fst r) + tally_settled t
      + length (intents (w_trace w)) + length (cleanup_errors (w_trace w))
      = total_candidates t + tally_settled (fst r)
        + length (intents (w_trace (snd r)))
        + length (cleanup_errors (w_trace (snd r))))%nat
  /\ w_disk (snd r) = w_disk w
  /\ (forall p, (forall k, In k (map fst items) -> under k p = false) ->
                w_fs (snd r) !! p = w_fs w !! p).
Proof.
  intros Hpol. revert t w.
  induction items as [|item rest IH]; intros t w r; subst r.
  - cbn [cleanup_loop fst snd length]. repeat split; lia.
  - cbn [cleanup_loop length map].
    pose proof (cleanup_item_accounts policy scope_paths permanent dry_run
                  t w item Hpol) as Hi.
    cbv zeta in Hi.
    destruct (cleanup_item policy scope_paths permanent dry_run t w item)
      as [t1 w1].
    cbn [fst snd] in Hi. destruct Hi as (Hseen & Hsum & Hdisk & Hfs).
    specialize (IH t1 w1). cbv zeta in IH.
    destruct IH as (IHseen & IHsum & IHdisk & IHfs).
    split; [lia|]. split; [lia|]. split; [congruence|].
    intros p Hp. rewrite IHfs by (intros k Hin; apply Hp; now right).
    apply Hfs. apply Hp. now left.
Qed.

(** X18. The summary of a cleanup pass accounts for every record once.
    Under a policy that is ["all"] or a set, the records left out by
    extension, those left out by scope and the candidates add up to the
    size of the store; and every candidate is settled exactly once: as not
    marked success, converted file missing, source gone, changed, removed,
    or by one dry-run line or one error line in the log. *)
Theorem cleanup_tally_accounts `{Env} (policy : Policy)
    (scope_paths : list string) (permanent dry_run : bool) (items : DB)
    (w : World) :
  policy <> PolicyNone ->
  let r := cleanup_loop policy scope_paths permanent dry_run items tally0 w in
  let t := fst r in
  (skipped_ext t + skipped_scope t + total_candidates t = length items)%nat
  /\ (total_candidates t
      + length (intents (w_trace w)) + length (cleanup_errors (w_trace w))
      = skipped_not_success t + missing_dst t + missing_src t + mismatched t
        + removed t
        + length (intents (w_trace (snd r)))
        + length (cleanup_errors (w_trace (snd r))))%nat.
Proof.
  intros Hpol r t. subst t r.
  pose proof (cleanup_loop_accounts policy scope_paths permanent dry_run
                items tally0 w Hpol) as Hl.
  cbv zeta in Hl. destruct Hl as (Hseen & Hsum & _).
  unfold tally_seen, tally_settled in *. cbn [tally0 skipped_ext skipped_scope
    total_candidates skipped_not_success missing_dst missing_src mismatched
    removed] in *.
  split; lia.
Qed.

Lemma cleanup_tally_accounts_witness :
  PolicyAll <> PolicyNone
  /\ let t := fst (@cleanup_loop env_done PolicyAll [] true false db_done
                     tally0 (world fs_done)) in
     (skipped_ext t + skipped_scope t + total_candidates t = 1)%nat.
Proof.
  assert (Hpol : PolicyAll <> PolicyNone) by discriminate.
  split; [exact Hpol|].
  exact (proj1 (@cleanup_tally_accounts env_done PolicyAll [] true false
                  db_done (world fs_done) Hpol)).
Defined.







(** ** Input discovery *)

Example collect_inputs_folder_and_file :
  collect_inputs fs_two walk_v ["/v"; src_b; src_a; "/v/a.mp4"]
  = ["/v/a.mkv"; "/v/sub/B.WEBM"; "/v/b.webm"].
Proof. vm_compute. reflexivity. Qed.

Lemma dedupe_spec (seen : gset string) (found : list string) :
  List.NoDup (dedupe seen found)
  /\ (forall x, In x (dedupe seen found) <-> In x found /\ x ∉ seen).
Proof.
  revert seen. induction found as [|f rest IH]; intros seen; cbn [dedupe].
  - split; [constructor | intros x; cbn; tauto].
  - destruct (bool_decide (f ∈ seen)) eqn:E.
    + apply bool_decide_eq_true in E. destruct (IH seen) as [Hnd Hin].
      split; [exact Hnd|]. intros x. rewrite Hin. cbn [In].
      split; [tauto|]. intros [[->|Hx] Hs]; [contradiction | tauto].
    + apply bool_decide_eq_false in E.
      destruct (IH ({[f]} ∪ seen)) as [Hnd Hin]. split.
      * constructor; [|exact Hnd]. rewrite Hin. set_solver.
      * intros x. cbn [In]. rewrite Hin. split.
        -- intros [->|[Hx Hs]]; [tauto|]. split; [tauto | set_solver].
        -- intros [[->|Hx] Hs]; [tauto|].
           destruct (decide (x = f)) as [->|Hne]; [tauto|].
           right. split; [exact Hx | set_solver].
Qed.

Lemma dedupe_nodup_id (seen : gset string) (found : list string) :
  List.NoDup found -> (forall x, In x found -> x ∉ seen) ->
  dedupe seen found = found.
Proof.
  revert seen. induction found as [|f rest IH]; intros seen Hnd Hs;
    cbn [dedupe]; [reflexivity|].
  inversion Hnd as [|? ? Hnin Hrest]; subst.
  rewrite bool_decide_eq_false_2 by (apply Hs; now left).
  f_equal. apply IH; [exact Hrest|].
  intros x Hx. pose proof (Hs x (or_intror Hx)).
  assert (x <> f) by (intros ->; contradiction). set_solver.
Qed.

Lemma collect_found_in (fs : FileSys)
    (walk : string -> list (string * list string)) (paths : list string)
    (x : string) :
  In x (collect_found fs walk paths)
  <-> exists p, In p paths
        /\ ((path_isfile fs p && recognised p = true /\ x = p)
            \/ (path_isfile fs p && recognised p = false
                /\ path_isdir fs p = true
                /\ exists root files n,
                     In (root, files) (walk p) /\ In n files
                     /\ recognised n = true /\ x = path_join root n)).
Proof.
  induction paths as [|p rest IH]; cbn [collect_found In].
  - split; [intros [] | intros [p [[] _]]].
  - rewrite in_app_iff, IH. split.
    + intros [Hx|[q [Hq Hx]]]; [|exists q; tauto].
      exists p. split; [now left|].
      destruct (path_isfile fs p && recognised p) eqn:E1.
      * destruct Hx as [<-|[]]. now left.
      * right. split; [reflexivity|].
        destruct (path_isdir fs p); [|destruct Hx]. split; [reflexivity|].
        apply in_concat in Hx. destruct Hx as (l & Hl & Hx).
        apply in_map_iff in Hl. destruct Hl as ([root files] & <- & Hent).
        unfold walk_dir in Hx. cbn [fst snd] in Hx.
        apply in_map_iff in Hx. destruct Hx as (n & <- & Hn).
        apply filter_In in Hn. destruct Hn as [Hn Hr].
        exists root, files, n. auto.
    + intros (q & [<-|Hq] & Hx); [|right; exists q; tauto].
      left. destruct Hx as [[-> ->]|(-> & -> & root & files & n & He & Hn & Hr & ->)].
      * now left.
      * apply in_concat. exists (walk_dir (root, files)). split.
        -- apply in_map. exact He.
        -- unfold walk_dir. cbn [fst snd]. apply in_map.
           apply filter_In. auto.
Qed.

(** X21. [collect_inputs] returns each input once.  Its result has no
    duplicate, and holds exactly the given paths that are regular files
    with a recognised extension ([.mkv], [.webm], [.ogv], any case) and,
    for every other given path that is a directory, the joined paths of
    the recognised file names the walk below it yields. *)
Theorem collect_inputs_membership (fs : FileSys)
    (walk : string -> list (string * list string)) (paths : list string) :
  List.NoDup (collect_inputs fs walk paths)
  /\ forall x,
       In x (collect_inputs fs walk paths)
       <-> exists p, In p paths
             /\ ((path_isfile fs p = true /\ recognised p = true /\ x = p)
                 \/ ((path_isfile fs p = false \/ recognised p = false)
                     /\ path_isdir fs p = true
                     /\ exists root files n,
                          In (root, files) (walk p) /\ In n files
                          /\ recognised n = true /\ x = path_join root n)).
Proof.
  unfold collect_inputs.
  destruct (dedupe_spec ∅ (collect_found fs walk paths)) as [Hnd Hin].
  split; [exact Hnd|]. intros x. rewrite Hin, collect_found_in. split.
  - intros [(p & Hp & Hx) _]. exists p. split; [exact Hp|].
    rewrite andb_true_iff, andb_false_iff in Hx. tauto.
  - intros (p & Hp & Hx). split; [|set_solver]. exists p. split; [exact Hp|].
    rewrite andb_true_iff, andb_false_iff. tauto.
Qed.

(** X22. [collect_inputs] keeps the order of first occurrence: given
    distinct regular files with recognised extensions, it returns them as
    given; in general a path it has returned once is dropped wherever it
    comes again, so collecting a list twice over gives what collecting it
    once gives. *)
Theorem collect_inputs_order (fs : FileSys)
    (walk : string -> list (string * list string)) (paths : list string) :
  (List.NoDup paths ->
   (forall p, In p paths -> path_isfile fs p = true /\ recognised p = true) ->
   collect_inputs fs walk paths = paths)
  /\ collect_inputs fs walk (paths ++ paths) = collect_inputs fs walk paths.
Proof.
  split.
  - intros Hnd Hall. unfold collect_inputs.
    assert (Hfound : collect_found fs walk paths = paths).
    { clear Hnd. induction paths as [|p rest IH]; [reflexivity|].
      cbn [collect_found]. destruct (Hall p (or_introl eq_refl)) as [-> ->].
      cbn [andb app]. f_equal. apply IH. intros q Hq. apply Hall. now right. }
    rewrite Hfound. apply dedupe_nodup_id; [exact Hnd | set_solver].
  - unfold collect_inputs.
    assert (Happ : forall a b, collect_found fs walk (a ++ b)
                               = collect_found fs walk a
                                 ++ collect_found fs walk b).
    { intros a b. induction a as [|p a IH]; [reflexivity|].
      cbn [app collect_found]. rewrite IH, app_assoc. reflexivity. }
    rewrite Happ. generalize (collect_found fs walk paths) as found.
    intros found.
    assert (Hgen : forall (seen : gset string) (a b : list string),
              (forall x, In x b -> In x a \/ x ∈ seen) ->
              dedupe seen (a ++ b) = dedupe seen a).
    { intros seen a. revert seen.
      induction a as [|f a IH]; intros seen b Hb; cbn [app dedupe].
      - induction b as [|g b IHb]; [reflexivity|]. cbn [dedupe].
        destruct (Hb g (or_introl eq_refl)) as [[]|Hg].
        rewrite bool_decide_eq_true_2 by exact Hg.
        apply IHb. intros x Hx. apply Hb. now right.
      - destruct (bool_decide (f ∈ seen)) eqn:E.
        + apply bool_decide_eq_true in E. apply IH. intros x Hx.
          destruct (Hb x Hx) as [[->|Hin]|Hs]; auto.
        + f_equal. apply IH. intros x Hx.
          destruct (Hb x Hx) as [[->|Hin]|Hs]; [right|left|right]; set_solver. }
    apply Hgen. auto.
Qed.

Lemma collect_inputs_order_witness :
  List.NoDup [src_b; src_a]
  /\ collect_inputs fs_two walk_v [src_b; src_a] = [src_b; src_a].
Proof.
  assert (Hnd : List.NoDup [src_b; src_a]).
  { constructor.
    - intros [Hx|[]]. discriminate Hx.
    - constructor; [intros [] | constructor]. }
  split; [exact Hnd|].
  apply (proj1 (collect_inputs_order fs_two walk_v [src_b; src_a]) Hnd).
  intros p [<-|[<-|[]]]; split; reflexivity.
Defined.


(** ** Tool resolution *)

(** X23. [resolve_media_bins] follows its order of preference.  A binary
    beside the script is taken whatever the bundled library and the
    search path offer, [ffmpeg.exe] before [ffmpeg] and [ffprobe.exe]
    before [ffprobe]; without one, a non-empty answer of the bundled
    library is taken for ffmpeg, and the search path only after that.
    ffprobe never comes from the bundled library: beside the script or on
    the search path, else nothing. *)
Theorem resolve_media_bins_order (script_dir : string) (fs : FileSys)
    (imageio : option string) (which : string -> option string) :
  let exe := path_join script_dir "ffmpeg.exe" in
  let plain := path_join script_dir "ffmpeg" in
  let probe_exe := path_join script_dir "ffprobe.exe" in
  let probe_plain := path_join script_dir "ffprobe" in
  let r := resolve_media_bins script_dir fs imageio which in
  (path_exists fs exe = true -> fst r = Some exe)
  /\ (path_exists fs exe = false -> path_exists fs plain = true ->
      fst r = Some plain)
  /\ (path_exists fs exe = false -> path_exists fs plain = false ->
      fst r = (if opt_truthy imageio then imageio else which "ffmpeg"))
  /\ (path_exists fs probe_exe = true -> snd r = Some probe_exe)
  /\ (path_exists fs probe_exe = false -> path_exists fs probe_plain = true ->
      snd r = Some probe_plain)
  /\ (path_exists fs probe_exe = false ->
      path_exists fs probe_plain = false ->
      snd r = which "ffprobe").
Proof.
  intros exe plain probe_exe probe_plain r. subst r.
  unfold resolve_media_bins.
  cbn [first_existing fst snd]. fold exe plain probe_exe probe_plain.
  assert (Hjoin : forall n, Str.truthy n = true ->
            String.prefix "/" n = false ->
            Str.truthy (path_join script_dir n) = true).
  { intros n Hn Hp. unfold path_join. rewrite Hp.
    destruct (negb (Str.truthy script_dir) || ends_with_sep script_dir);
      destruct script_dir, n; try reflexivity; discriminate. }
  assert (Hexe : Str.truthy exe = true) by (apply Hjoin; reflexivity).
  assert (Hplain : Str.truthy plain = true) by (apply Hjoin; reflexivity).
  assert (Hpexe : Str.truthy probe_exe = true) by (apply Hjoin; reflexivity).
  assert (Hpplain : Str.truthy probe_plain = true)
    by (apply Hjoin; reflexivity).
  split; [|split; [|split; [|split; [|split]]]].
  - intros ->. cbn [opt_truthy]. rewrite Hexe. cbn [opt_truthy].
    rewrite Hexe. reflexivity.
  - intros -> ->. cbn [opt_truthy]. rewrite Hplain. cbn [opt_truthy].
    rewrite Hplain. reflexivity.
  - intros -> ->. cbn [opt_truthy]. destruct (opt_truthy imageio); reflexivity.
  - intros ->. cbn [opt_truthy]. rewrite Hpexe. reflexivity.
  - intros -> ->. cbn [opt_truthy]. rewrite Hpplain. reflexivity.
  - intros -> ->. reflexivity.
Qed.

Lemma resolve_media_bins_order_witness :
  path_exists (<["/app/ffprobe" := mkNode false 1 1]>
                 (<["/app/ffmpeg" := mkNode false 1 1]> ∅)) "/app/ffmpeg.exe"
  = false
  /\ resolve_media_bins "/app"
       (<["/app/ffprobe" := mkNode false 1 1]>
          (<["/app/ffmpeg" := mkNode false 1 1]> ∅))
       (Some "/bundled/ffmpeg") (fun _ => Some "/usr/bin/x")
     = (Some "/app/ffmpeg", Some "/app/ffprobe").
Proof.
  split; [reflexivity|].
  pose proof (resolve_media_bins_order "/app"
                (<["/app/ffprobe" := mkNode false 1 1]>
                   (<["/app/ffmpeg" := mkNode false 1 1]> ∅))
                (Some "/bundled/ffmpeg") (fun _ => Some "/usr/bin/x")) as Hw.
  cbv zeta in Hw. destruct Hw as (_ & Hplain & _ & _ & Hprobe & _).
  apply injective_projections.
  - exact (Hplain eq_refl eq_refl).
  - exact (Hprobe eq_refl eq_refl).
Defined.

(** ** The options a click builds *)

Lemma checked_exts_elem (del_mkv del_webm del_ogv : bool) (ext : string) :
  ext ∈ checked_exts del_mkv del_webm del_ogv
  <-> (ext = ".mkv" /\ del_mkv = true)
      \/ (ext = ".webm" /\ del_webm = true)
      \/ (ext = ".ogv" /\ del_ogv = true).
Proof.
  unfold checked_exts. destruct del_mkv, del_webm, del_ogv;
    rewrite ?elem_of_union, ?elem_of_singleton, ?elem_of_empty;
    intuition discriminate.
Qed.

Lemma checked_exts_empty (del_mkv del_webm del_ogv : bool) :
  checked_exts del_mkv del_webm del_ogv = ∅
  <-> del_mkv = false /\ del_webm = false /\ del_ogv = false.
Proof.
  split.
  - intros He.
    pose proof (checked_exts_elem del_mkv del_webm del_ogv ".mkv") as H1.
    pose proof (checked_exts_elem del_mkv del_webm del_ogv ".webm") as H2.
    pose proof (checked_exts_elem del_mkv del_webm del_ogv ".ogv") as H3.
    rewrite He in H1, H2, H3. rewrite elem_of_empty in H1, H2, H3.
    destruct del_mkv, del_webm, del_ogv; intuition.
  - intros (-> & -> & ->). unfold checked_exts. set_solver.
Qed.

Lemma checked_exts_not_all (del_mkv del_webm del_ogv : bool) :
  checked_exts del_mkv del_webm del_ogv <> {["all"]}.
Proof.
  intros He.
  pose proof (checked_exts_elem del_mkv del_webm del_ogv "all") as Ha.
  rewrite He, elem_of_singleton in Ha.
  destruct (proj1 Ha eq_refl) as [[Hx _]|[[Hx _]|[Hx _]]]; discriminate Hx.
Qed.

Lemma start_options_allows (strip : string -> string)
    (var_crf var_preset var_tune : string)
    (var_lossless var_force var_dryrun var_perm : bool)
    (del_mkv del_webm del_ogv : bool) (ext : string) :
  policy_allows
    (delete_after_policy
       (start_options strip var_crf var_preset var_tune var_lossless
          var_force var_dryrun var_perm del_mkv del_webm del_ogv)) ext = true
  <-> (ext = ".mkv" /\ del_mkv = true)
      \/ (ext = ".webm" /\ del_webm = true)
      \/ (ext = ".ogv" /\ del_ogv = true).
Proof.
  unfold start_options. cbn [delete_after_policy].
  set (s := checked_exts del_mkv del_webm del_ogv).
  pose proof (checked_exts_not_all del_mkv del_webm del_ogv) as Hall.
  fold s in Hall.
  destruct (bool_decide (s = ∅)) eqn:Ee.
  - apply bool_decide_eq_true in Ee. cbn [policy_allows].
    split; [discriminate|].
    intros Hx. apply (checked_exts_elem del_mkv del_webm del_ogv) in Hx.
    fold s in Hx. rewrite Ee in Hx. apply elem_of_empty in Hx. destruct Hx.
  - rewrite bool_decide_eq_false_2 by exact Hall.
    cbn [policy_allows]. rewrite bool_decide_eq_true.
    apply checked_exts_elem.
Qed.

(** X24. The options of a run take their delete-after policy from the
    three check boxes and from nothing else: the policy covers an
    extension exactly when it is [.mkv], [.webm] or [.ogv] and its box is
    checked; it is never ["all"], and it is unset exactly when no box is
    checked.  The quality fields cannot come out empty: a blank CRF or
    preset falls back to 18 and slow. *)
Theorem start_options_policy (strip : string -> string)
    (var_crf var_preset var_tune : string)
    (var_lossless var_force var_dryrun var_perm : bool)
    (del_mkv del_webm del_ogv : bool) :
  let opts := start_options strip var_crf var_preset var_tune var_lossless
                var_force var_dryrun var_perm del_mkv del_webm del_ogv in
  (forall ext,
     policy_allows (delete_after_policy opts) ext = true
     <-> (ext = ".mkv" /\ del_mkv = true)
         \/ (ext = ".webm" /\ del_webm = true)
         \/ (ext = ".ogv" /\ del_ogv = true))
  /\ delete_after_policy opts <> PolicyAll
  /\ (policy_truthy (delete_after_policy opts) = false
      <-> del_mkv = false /\ del_webm = false /\ del_ogv = false)
  /\ Str.truthy (crf opts) = true
  /\ Str.truthy (preset opts) = true
  /\ (Str.truthy (strip var_crf) = false -> crf opts = "18")
  /\ (Str.truthy (strip var_preset) = false -> preset opts = "slow").
Proof.
  intros opts. subst opts. unfold start_options.
  cbn [delete_after_policy crf preset].
  set (s := checked_exts del_mkv del_webm del_ogv).
  pose proof (checked_exts_not_all del_mkv del_webm del_ogv) as Hall.
  pose proof (checked_exts_empty del_mkv del_webm del_ogv) as Hempty.
  fold s in Hall, Hempty.
  destruct (bool_decide (s = ∅)) eqn:Ee.
  - apply bool_decide_eq_true in Ee.
    split; [|split; [|split]].
    + intros ext. cbn [policy_allows]. split; [discriminate|].
      intros Hx. apply (checked_exts_elem del_mkv del_webm del_ogv) in Hx.
      fold s in Hx. rewrite Ee in Hx. set_solver.
    + discriminate.
    + cbn [policy_truthy]. tauto.
    + unfold str_or.
      destruct (Str.truthy (strip var_crf)) eqn:E1,
               (Str.truthy (strip var_preset)) eqn:E2;
        repeat split; try assumption; try reflexivity; discriminate.
  - apply bool_decide_eq_false in Ee.
    rewrite bool_decide_eq_false_2 by exact Hall.
    split; [|split; [|split]].
    + intros ext. cbn [policy_allows]. rewrite bool_decide_eq_true.
      apply checked_exts_elem.
    + discriminate.
    + cbn [policy_truthy]. rewrite bool_decide_eq_false_2 by exact Ee.
      cbn [negb]. split; [discriminate | tauto].
    + unfold str_or.
      destruct (Str.truthy (strip var_crf)) eqn:E1,
               (Str.truthy (strip var_preset)) eqn:E2;
        repeat split; try assumption; try reflexivity; discriminate.
Qed.

Lemma start_options_policy_witness :
  Str.truthy "" = false
  /\ crf (start_options (fun s => s) "" "fast" "" false false false true
            true false false) = "18".
Proof.
  split; [reflexivity|].
  exact (proj1 (proj2 (proj2 (proj2 (proj2 (proj2
           (start_options_policy (fun s => s) "" "fast" "" false false false
              true true false false)))))) eq_refl).
Defined.

(** X25. The cleanup button never hands the pass an unset policy.  With
    boxes checked the policy is the set of the checked extensions; with
    none checked it is ["all"] after a yes and the pass does not run, the
    world staying as it is, after a no. *)
Theorem cleanup_click_policy `{Env} (scope : list string)
    (del_mkv del_webm del_ogv askyesno var_dryrun var_perm : bool)
    (w : World) :
  cleanup_policy del_mkv del_webm del_ogv askyesno <> Some PolicyNone
  /\ (forall policy ext,
        cleanup_policy del_mkv del_webm del_ogv askyesno = Some policy ->
        policy_allows policy ext = true
        <-> (del_mkv = false /\ del_webm = false /\ del_ogv = false)
            \/ (ext = ".mkv" /\ del_mkv = true)
            \/ (ext = ".webm" /\ del_webm = true)
            \/ (ext = ".ogv" /\ del_ogv = true))
  /\ (del_mkv = false -> del_webm = false -> del_ogv = false ->
      askyesno = false ->
      cleanup_from_progress_clicked scope del_mkv del_webm del_ogv askyesno
        var_dryrun var_perm w = w).
Proof.
  unfold cleanup_from_progress_clicked, cleanup_policy.
  pose proof (checked_exts_empty del_mkv del_webm del_ogv) as Hempty.
  set (s := checked_exts del_mkv del_webm del_ogv) in *.
  split; [|split].
  - destruct (bool_decide (s = ∅)); [destruct askyesno|]; discriminate.
  - intros policy ext.
    destruct (bool_decide (s = ∅)) eqn:Ee.
    + apply bool_decide_eq_true in Ee. apply Hempty in Ee.
      destruct askyesno; cbn [negb]; [|discriminate].
      intros Hp. injection Hp as <-. cbn [policy_allows]. tauto.
    + apply bool_decide_eq_false in Ee.
      intros Hp. injection Hp as <-. cbn [policy_allows].
      rewrite bool_decide_eq_true. subst s. rewrite checked_exts_elem.
      rewrite Hempty in Ee. tauto.
  - intros -> -> -> ->. reflexivity.
Qed.

Lemma cleanup_click_policy_witness :
  cleanup_policy false false false true = Some PolicyAll
  /\ (policy_allows PolicyAll ".ogv" = true
      <-> (false = false /\ false = false /\ false = false)
          \/ (".ogv" = ".mkv" /\ false = true)
          \/ (".ogv" = ".webm" /\ false = true)
          \/ (".ogv" = ".ogv" /\ false = true)).
Proof.
  split; [reflexivity|].
  exact (proj1 (proj2 (@cleanup_click_policy env_ok [] false false false true
                         false false (world fs_done)))
           PolicyAll ".ogv" eq_refl).
Defined.


(** ** What a run deletes *)

(** The calls of [delete_file] one task adds: none, or one on its own
    source under a policy that covers it and with [dry_run] off. *)
Lemma run_task_deletions `{Env} (opts : Options) (total : nat) (src : string)
    (st : RunState) :
  deletions (w_trace (r_world (run_task opts total src st)))
  = deletions (w_trace (r_world st))
  \/ (deletions (w_trace (r_world (run_task opts total src st)))
      = deletions (w_trace (r_world st)) ++ [EvDeleteFile src (permanent opts)]
      /\ policy_allows (delete_after_policy opts) (ext_of src) = true
      /\ dry_run opts = false).
Proof.
  destruct (skips opts src st) eqn:Hskip.
  - left. rewrite run_task_skipped by exact Hskip. cbn [r_world w_trace].
    rewrite deletions_app. simpl. apply app_nil_r.
  - rewrite run_task_processed by exact Hskip.
    pose proof (process_file_facts opts src (r_idx st) total (r_world st))
      as Hp.
    cbv zeta in Hp. destruct Hp as (new & Htr & Hd & _).
    pose proof (finish_deletions opts total src st
                  (process_file opts src (r_idx st) total (r_world st))) as Hf.
    cbv zeta in Hf.
    destruct (match fst (process_file opts src (r_idx st) total (r_world st))
              with
              | Some ok => deletes_after opts src ok
              | None => false
              end) eqn:Hda.
    + right. rewrite Hf, Htr, deletions_app, Hd, app_nil_r.
      split; [reflexivity|].
      destruct (fst (process_file opts src (r_idx st) total (r_world st)))
        as [ok|]; [|discriminate].
      unfold deletes_after in Hda.
      rewrite !andb_true_iff, negb_true_iff in Hda. tauto.
    + left. destruct Hf as [-> _].
      rewrite Htr, deletions_app, Hd. apply app_nil_r.
Qed.

Lemma run_loop_deletions `{Env} (opts : Options) (total : nat)
    (tasks : list string) (st : RunState) (e : Event) :
  In e (deletions (w_trace (r_world (run_loop opts total tasks st)))) ->
  In e (deletions (w_trace (r_world st)))
  \/ exists src,
       In src tasks
       /\ e = EvDeleteFile src (permanent opts)
       /\ policy_allows (delete_after_policy opts) (ext_of src) = true
       /\ dry_run opts = false.
Proof.
  revert st. induction tasks as [|src rest IH]; intros st Hin.
  - left. exact Hin.
  - cbn [run_loop] in Hin. destruct (stop_is_set (r_idx st)).
    + left. cbn [r_world ui_safe_log emit w_trace] in Hin.
      rewrite deletions_app in Hin. simpl in Hin. now rewrite app_nil_r in Hin.
    + apply IH in Hin. destruct Hin as [Hin|(s & Hs & He)].
      * set (st0 := mkRun (r_db st) (r_success st) (r_skipped st)
                      (S (r_idx st)) (r_world st)) in *.
        destruct (run_task_deletions opts total src st0) as [Hd|(Hd & Hal & Hdry)];
          rewrite Hd in Hin.
        -- left. exact Hin.
        -- apply in_app_iff in Hin. destruct Hin as [Hin|[<-|[]]].
           ++ left. exact Hin.
           ++ right. exists src. split; [now left | auto].
      * right. exists s. split; [now right | exact He].
Qed.

(** X26. From the check boxes to the file system: in a run started with
    the options of the window, every call of [delete_file] is on one of
    the tasks, with [dry_run] off, and the extension of that task is one
    of [.mkv], [.webm], [.ogv] whose box is checked.  With no box checked
    the run calls [delete_file] for nothing. *)
Theorem run_deletes_checked_types_only `{Env} (strip : string -> string)
    (var_crf var_preset var_tune : string)
    (var_lossless var_force var_dryrun var_perm : bool)
    (del_mkv del_webm del_ogv : bool) (total : nat) (tasks : list string)
    (st : RunState) (e : Event) :
  let opts := start_options strip var_crf var_preset var_tune var_lossless
                var_force var_dryrun var_perm del_mkv del_webm del_ogv in
  In e (deletions (w_trace (r_world (run_loop opts total tasks st)))) ->
  In e (deletions (w_trace (r_world st)))
  \/ exists src,
       In src tasks
       /\ e = EvDeleteFile src var_perm
       /\ var_dryrun = false
       /\ ((ext_of src = ".mkv" /\ del_mkv = true)
           \/ (ext_of src = ".webm" /\ del_webm = true)
           \/ (ext_of src = ".ogv" /\ del_ogv = true)).
Proof.
  intros opts Hin. apply run_loop_deletions in Hin.
  destruct Hin as [Hin|(src & Hs & He & Hal & Hdry)]; [now left|].
  right. exists src. subst opts. apply start_options_allows in Hal.
  cbn [start_options permanent dry_run] in He, Hdry. auto.
Qed.

Lemma run_deletes_checked_types_only_witness :
  In (EvDeleteFile src_a true)
     (deletions (w_trace (r_world
        (@run_loop env_ok
           (start_options (fun s => s) "" "" "" false false false true
              true false false)
           1 [src_a] (mkRun [] 0 0 0 (world fs_fresh))))))
  /\ exists src, In src [src_a] /\ ext_of src = ".mkv".
Proof.
  assert (Hin : In (EvDeleteFile src_a true)
     (deletions (w_trace (r_world
        (@run_loop env_ok
           (start_options (fun s => s) "" "" "" false false false true
              true false false)
           1 [src_a] (mkRun [] 0 0 0 (world fs_fresh))))))).
  { vm_compute. now left. }
  split; [exact Hin|].
  destruct (@run_deletes_checked_types_only env_ok (fun s => s) "" "" "" false
              false false true true false false 1%nat [src_a]
              (mkRun [] 0 0 0 (world fs_fresh)) _ Hin)
    as [[]|(src & Hs & He & _ & Hext)].
  exists src. split; [exact Hs|].
  destruct Hext as [[Hx _]|[[_ Hx]|[_ Hx]]];
    [exact Hx | discriminate Hx | discriminate Hx].
Defined.

(** ** Scope *)

(** X27. [is_within] admits every path under an empty scope; under a
    non-empty scope it admits exactly the paths that normalise to a root
    and the paths that start with a root that is a directory followed by
    the separator.  A root that is not a directory admits only itself,
    and a path that merely starts with the characters of a root, without
    the separator, is outside. *)
Theorem is_within_iff `{Env} (fs : FileSys) (path : string)
    (roots : list string) :
  is_within fs path roots = true
  <-> roots = []
      \/ exists r,
           In r roots
           /\ (norm_path path = norm_path r
               \/ (path_isdir fs (norm_path r) = true
                   /\ String.prefix (norm_path r +:+ os_sep) (norm_path path)
                      = true)).
Proof.
  destruct roots as [|r0 rest].
  - cbn [is_within]. tauto.
  - unfold is_within. rewrite within_roots_iff. unfold in_scope_of.
    split; [auto | intros [Hx|Hx]; [discriminate | exact Hx]].
Qed.


(** ** Extensions of joined paths *)

Lemma rfind_from_shift (c : ascii) (s : string) (i acc : Z) :
  (Str.rfind c s = -1 /\ Str.rfind_from c s i acc = acc)
  \/ (0 <= Str.rfind c s < slen s
      /\ Str.rfind_from c s i acc = i + Str.rfind c s).
Proof.
  unfold Str.rfind, slen. revert i acc.
  induction s as [|d r IH]; intros i acc; cbn [Str.rfind_from String.length].
  - left. auto.
  - destruct (IH 1 (if Ascii.eqb c d then 0 else -1)) as [[HR H1]|[HR H1]];
      destruct (IH (i + 1) (if Ascii.eqb c d then i else acc))
        as [[HR' Hi]|[HR' Hi]];
      try lia; change (0 + 1) with 1; rewrite H1, Hi.
    + destruct (Ascii.eqb c d); [right | left]; lia.
    + right. lia.
Qed.

Lemma rfind_from_append (c : ascii) (a b : string) (i acc : Z) :
  Str.rfind_from c (a +:+ b) i acc
  = Str.rfind_from c b (i + slen a) (Str.rfind_from c a i acc).
Proof.
  unfold slen. revert i acc.
  induction a as [|d r IH]; intros i acc; simpl.
  - f_equal. lia.
  - rewrite IH. f_equal. lia.
Qed.

Lemma rfind_append (c : ascii) (a b : string) :
  Str.rfind c (a +:+ b)
  = if Str.rfind c b =? -1 then Str.rfind c a else slen a + Str.rfind c b.
Proof.
  unfold Str.rfind at 1. rewrite rfind_from_append.
  destruct (rfind_from_shift c b (0 + slen a) (Str.rfind_from c a 0 (-1)))
    as [[HR ->]|[HR ->]].
  - rewrite HR. reflexivity.
  - destruct (Z.eqb_spec (Str.rfind c b) (-1)); lia.
Qed.

Lemma rfind_ends_with_sep (pre : string) :
  pre = "" \/ ends_with_sep pre = true ->
  Str.rfind "/" pre = slen pre - 1.
Proof.
  intros [->|He]; [reflexivity|].
  induction pre as [|d r IH]; [discriminate|].
  change (String d r) with (String d "" +:+ r).
  rewrite rfind_append. unfold slen in *. cbn [String.append String.length].
  destruct r as [|d' r'].
  - cbn [ends_with_sep] in He. apply Ascii.eqb_eq in He. subst d.
    reflexivity.
  - assert (He' : ends_with_sep (String d' r') = true) by exact He.
    rewrite (IH He'), string_length_append. cbn [String.length].
    destruct (Z.eqb_spec (Z.of_nat (S (String.length r')) - 1) (-1)); lia.
Qed.

Lemma ends_with_sep_append (root : string) :
  ends_with_sep (root +:+ "/") = true.
Proof.
  induction root as [|d r IH]; [reflexivity|].
  change (String d r +:+ "/") with (String d (r +:+ "/")).
  remember (r +:+ "/") as t eqn:E. destruct t as [|a t'].
  - destruct r; discriminate.
  - exact IH.
Qed.

Lemma has_non_dot_append (pre n : string) (i k : nat) :
  Str.has_non_dot (pre +:+ n) (String.length pre + i) k
  = Str.has_non_dot n i k.
Proof.
  revert i. induction k as [|k IH]; intros i; cbn [Str.has_non_dot];
    [reflexivity|].
  rewrite (Nat.add_comm (String.length pre) i), <- String.append_correct2.
  replace (S (i + String.length pre)) with (String.length pre + S i)%nat
    by lia.
  rewrite IH. reflexivity.
Qed.

Lemma substring_append_skip (pre n : string) (a m : nat) :
  substring (String.length pre + a) m (pre +:+ n) = substring a m n.
Proof.
  induction pre as [|d r IH]; [reflexivity|].
  cbn [String.length String.append Nat.add substring]. exact IH.
Qed.

Lemma string_append_assoc (a b c : string) :
  (a +:+ b) +:+ c = a +:+ (b +:+ c).
Proof.
  induction a as [|d r IH]; [reflexivity|].
  change (String d ((r +:+ b) +:+ c) = String d (r +:+ (b +:+ c))).
  now rewrite IH.
Qed.

(** The extension of a file name survives a directory in front of it. *)
Lemma splitext_behind_dir (pre n : string) :
  pre = "" \/ ends_with_sep pre = true ->
  Str.rfind "/" n = -1 ->
  snd (Str.splitext (pre +:+ n)) = snd (Str.splitext n).
Proof.
  intros Hpre Hn. unfold Str.splitext.
  rewrite !rfind_append, Hn. change (-1 =? -1) with true. cbv iota.
  rewrite (rfind_ends_with_sep pre Hpre).
  destruct (rfind_from_shift "." n 0 (-1)) as [[Hd _]|[Hd _]].
  - rewrite Hd. change (-1 =? -1) with true. change (-1 <? -1) with false.
    cbv iota. cbn [andb snd].
    assert (Hlt : (slen pre - 1 <? Str.rfind "." pre) = false).
    { apply Z.ltb_ge.
      destruct (rfind_from_shift "." pre 0 (-1)) as [[Hx _]|[Hx _]];
        unfold slen in *; lia. }
    rewrite Hlt. reflexivity.
  - destruct (Z.eqb_spec (Str.rfind "." n) (-1)) as [Hx|_]; [lia|].
    assert (Hlt : (slen pre - 1 <? slen pre + Str.rfind "." n) = true)
      by (apply Z.ltb_lt; lia).
    assert (Hlt' : (-1 <? Str.rfind "." n) = true) by (apply Z.ltb_lt; lia).
    rewrite Hlt, Hlt'. cbn [andb].
    replace (Z.to_nat (slen pre - 1 + 1)) with (String.length pre + 0)%nat
      by (unfold slen; lia).
    replace (Z.to_nat (slen pre + Str.rfind "." n - (slen pre - 1 + 1)))
      with (Z.to_nat (Str.rfind "." n - (-1 + 1))) by lia.
    rewrite has_non_dot_append. change (Z.to_nat (-1 + 1)) with 0%nat.
    destruct (Str.has_non_dot n 0 (Z.to_nat (Str.rfind "." n - (-1 + 1))));
      [|reflexivity].
    cbn [snd]. unfold Str.drop.
    replace (Z.to_nat (slen pre + Str.rfind "." n))
      with (String.length pre + Z.to_nat (Str.rfind "." n))%nat
      by (unfold slen; lia).
    rewrite string_length_append.
    replace (String.length pre + String.length n
             - (String.length pre + Z.to_nat (Str.rfind "." n)))%nat
      with (String.length n - Z.to_nat (Str.rfind "." n))%nat by lia.
    apply substring_append_skip.
Qed.

Lemma recognised_join (root n : string) :
  Str.rfind "/" n = -1 ->
  recognised (path_join root n) = recognised n.
Proof.
  intros Hn. unfold recognised, path_join.
  assert (Hp : String.prefix "/" n = false).
  { destruct n as [|c r]; [reflexivity|]. cbn [String.prefix].
    destruct (ascii_dec "/" c) as [<-|Hne]; [|reflexivity].
    exfalso. change (String "/" r) with (String "/" "" +:+ r) in Hn.
    rewrite rfind_append in Hn. unfold slen in Hn. cbn [String.length] in Hn.
    destruct (rfind_from_shift "/" r 0 (-1)) as [[Hx _]|[Hx _]].
    - rewrite Hx in Hn. cbn in Hn. discriminate.
    - destruct (Z.eqb_spec (Str.rfind "/" r) (-1)); lia. }
  rewrite Hp.
  destruct (negb (Str.truthy root) || ends_with_sep root) eqn:E.
  - rewrite splitext_behind_dir; [reflexivity | | exact Hn].
    apply orb_true_iff in E. destruct E as [E|E]; [left | now right].
    destruct root; [reflexivity | discriminate].
  - rewrite <- string_append_assoc.
    rewrite splitext_behind_dir; [reflexivity | | exact Hn].
    right. apply ends_with_sep_append.
Qed.

(** X28. Discovery and dispatch agree.  When the file names the walk
    yields hold no separator, every path [collect_inputs] returns carries
    one of the three recognised extensions as the run reads it, also the
    ones found below a directory: the run remuxes those that read [.mkv]
    and hands only [.webm] and [.ogv] to the transcode. *)
Theorem collected_inputs_are_recognised (fs : FileSys)
    (walk : string -> list (string * list string)) (paths : list string) :
  (forall p root files n,
     In (root, files) (walk p) -> In n files -> Str.rfind "/" n = -1) ->
  forall x,
    In x (collect_inputs fs walk paths) ->
    ext_of x = ".mkv" \/ ext_of x = ".webm" \/ ext_of x = ".ogv".
Proof.
  intros Hnames x Hx. unfold collect_inputs in Hx.
  apply (proj2 (dedupe_spec ∅ (collect_found fs walk paths))) in Hx.
  destruct Hx as [Hx _]. apply collect_found_in in Hx.
  assert (Hrec : recognised x = true).
  { destruct Hx as (p & Hp & [[Hf ->]|(_ & _ & root & files & n & He & Hn & Hr & ->)]).
    - apply andb_true_iff in Hf. tauto.
    - rewrite recognised_join; [exact Hr|]. eapply Hnames; eassumption. }
  unfold recognised, str_in, INPUT_EXTS in Hrec. cbn [existsb] in Hrec.
  rewrite !orb_true_iff, !String.eqb_eq in Hrec. unfold ext_of.
  destruct Hrec as [Hr|[Hr|[Hr|Hr]]]; [| | |discriminate]; rewrite <- Hr; auto.
Qed.

Lemma collected_inputs_are_recognised_witness :
  In "/v/sub/B.WEBM" (collect_inputs fs_two walk_v ["/v"])
  /\ ext_of "/v/sub/B.WEBM" = ".webm".
Proof.
  assert (Hin : In "/v/sub/B.WEBM" (collect_inputs fs_two walk_v ["/v"])).
  { vm_compute. auto. }
  split; [exact Hin|].
  assert (Hnames : forall p root files n,
            In (root, files) (walk_v p) -> In n files -> Str.rfind "/" n = -1).
  { intros p root files n He Hn. unfold walk_v in He.
    destruct (String.eqb p "/v"); [|destruct He].
    destruct He as [He|[He|[]]]; injection He as <- <-;
      repeat (destruct Hn as [<-|Hn]; [reflexivity|]); destruct Hn. }
  destruct (collected_inputs_are_recognised fs_two walk_v ["/v"] Hnames
              "/v/sub/B.WEBM" Hin) as [Hx|[Hx|Hx]];
    [discriminate Hx | exact Hx | discriminate Hx].
Defined.
